(** * mavconn TCP transport (src/mavconn/mavconn_tcp.cpp)

    A shallow embedding of the TCP client and server channels of mavconn:
    the endpoint resolver, the transmit queue with its partial-write
    resumption, the close path, the accept handler, and the properties
    the specification states about them.

    The objects of boost::asio are modelled by what the code observes of
    them: a socket is open or not, an io_service has a FIFO of posted
    handlers and may be stopped, an asynchronous send is an outstanding
    operation holding the bytes of the buffer view it was started with. *)

From Stdlib Require Import ZArith List Bool Lia String.
From Stdlib Require Import Strings.Byte.
Import ListNotations.
Open Scope Z_scope.

Set Implicit Arguments.

(** ** Outcomes

    A call either returns, or leaves through one of the four ways the
    code has of not returning normally.  The state reached is kept in
    both cases. *)

Inductive failure : Type :=
| AssertionFailed   (* ROS_ASSERT / ROS_ASSERT_MSG: the process aborts *)
| SystemError       (* std::system_error: std::thread::join on the calling thread *)
| IndeterminateRead (* a member no constructor initialised is read *)
| UseAfterFree      (* a member of an object that was deleted is used *).

Inductive outcome (A : Type) : Type :=
| Ok (a : A)
| Fail (f : failure) (a : A).

Arguments Ok {A} a.
Arguments Fail {A} f a.

Definition bind {A : Type} (o : outcome A) (k : A -> outcome A) : outcome A :=
  match o with
  | Ok a => k a
  | Fail f a => Fail f a
  end.

Notation "o >>= k" := (bind o k) (at level 50, left associativity).

Definition state_of {A : Type} (o : outcome A) : A :=
  match o with
  | Ok a => a
  | Fail _ a => a
  end.

Definition returns {A : Type} (o : outcome A) : bool :=
  match o with
  | Ok _ => true
  | Fail _ _ => false
  end.

(** ** Endpoint resolver *)

Record endpoint : Type := { address : Z; port : Z }.

(** tcp::endpoint::port(unsigned short): overwrite the port. *)
Definition set_port (ep : endpoint) (p : Z) : endpoint :=
  {| address := address ep; port := p |}.

(** What [resolver.resolve(query, ec)] hands back: the range of resolved
    endpoints and the error code ([0] is success). *)
Record resolve_result : Type := { entries : list endpoint; ec : Z }.

(** [resolve_address_tcp]: the body of the [for_each] lambda runs on every
    entry in turn; [fst] is the returned flag, [snd] the out-parameter
    [ep]. *)
Definition resolve_address_tcp (r : resolve_result) (port : Z)
    (ep : endpoint) : bool * endpoint :=
  let '(result, ep) :=
    fold_left (fun (acc : bool * endpoint) (q_ep : endpoint) =>
                 (true, set_port q_ep port))
              (entries r) (false, ep) in
  if negb (ec r =? 0) then (false, ep) else (result, ep).

(** ** Transmit buffer *)

(** Modelled from the spec: [struct MsgBuffer] is declared in a header
    that is not part of the source tree.  The spec gives it a payload and
    a cursor, with [remaining() = payload.len() - cursor]; the code calls
    the cursor [pos], the remaining count [nbytes()] and the address of
    the first unwritten byte [dpos()]. *)
Record MsgBuffer : Type := { data : list byte; pos : Z }.

Definition len (b : MsgBuffer) : Z := Z.of_nat (List.length (data b)).

(** [new MsgBuffer(bytes, length)] *)
Definition MsgBuffer_of_bytes (bytes : list byte) : MsgBuffer :=
  {| data := bytes; pos := 0 |}.

Definition nbytes (b : MsgBuffer) : Z := len b - pos b.

Definition dpos (b : MsgBuffer) : list byte := skipn (Z.to_nat (pos b)) (data b).

(** [buffer(buf->dpos(), buf->nbytes())]: the bytes an asynchronous send
    is started on.  Outside the payload the C++ view points past the
    array; the model keeps the part that lies inside it. *)
Definition buffer (b : MsgBuffer) : list byte :=
  firstn (Z.to_nat (nbytes b)) (dpos b).

(** [buf->pos += bytes_transferred] *)
Definition advance (b : MsgBuffer) (bytes_transferred : Z) : MsgBuffer :=
  {| data := data b; pos := pos b + bytes_transferred |}.

(** ** Messages, signals and the trace of effects *)

(** Modelled from the spec: [mavlink_message_t] comes from the external
    codec; the fields are the ones this file reads. *)
Record mavlink_message_t : Type := {
  m_len : Z;
  m_seq : Z;
  m_sysid : Z;
  m_compid : Z;
  m_msgid : Z;
  m_payload : list byte;
  m_checksum : Z
}.

Inductive signal : Type :=
| port_closed
| message_received (message : mavlink_message_t) (sysid compid : Z).

(** The effects a channel has on the world outside its own fields, in the
    order the code performs them. *)
Inductive action : Type :=
| IoStop                       (* io_service.stop() *)
| SocketClose                  (* socket.close() / acceptor.close() *)
| TxClear                      (* delete every queued buffer; tx_q.clear() *)
| Emit (s : signal)            (* a signal is fired *)
| Join                         (* io_thread.join() returned *)
| Finalize (msg : mavlink_message_t) (sysid compid chan length : Z)
                               (* mavlink_finalize_message_chan *).

(** The thread that executes a call: the I/O thread, which runs
    [io_service::run] and with it every handler (for a client-mode channel
    and for a server it is the thread their [io_thread] stands for; an
    accepted client is served by its server's), or any other thread. *)
Inductive thread : Type := External | IoThread.

(** What [io_service.post] can be given in this file. *)
Inductive handler : Type :=
| do_recv_h
| do_send_h (check_tx_state : bool).

(** A constructor either yields the object or throws [DeviceError]. *)
Inductive construction (A : Type) : Type :=
| Constructed (a : A)
| DeviceError (what : string).

Arguments Constructed {A} a.
Arguments DeviceError {A} what.

(** A default-constructed [tcp::endpoint]. *)
Definition endpoint_default : endpoint := {| address := 0; port := 0 |}.

(** ** Client channel *)

Module MAVConnTCPClient.

Record Client : Type := {
  channel : Z;
  sys_id : Z;
  comp_id : Z;
  server_ep : endpoint;
  tx_in_progress : option bool;   (* [None]: no constructor wrote it *)
  io_work : bool;                 (* the unique_ptr holds a work object *)
  io_stopped : bool;              (* io_service.stop() was called *)
  io_thread : bool;               (* io_thread.joinable() *)
  socket : bool;                  (* socket.is_open() *)
  tx_q : list MsgBuffer;
  posted : list handler;          (* handlers posted on io_service, oldest first *)
  rx_ops : nat;                   (* async_receive operations outstanding *)
  tx_ops : list (list byte);      (* async_send operations outstanding, oldest first *)
  wire : list byte;               (* bytes the socket has transmitted *)
  trace : list action
}.

Definition with_tx_q (q : list MsgBuffer) (c : Client) : Client :=
  {| channel := channel c; sys_id := sys_id c; comp_id := comp_id c;
     server_ep := server_ep c; tx_in_progress := tx_in_progress c;
     io_work := io_work c; io_stopped := io_stopped c;
     io_thread := io_thread c; socket := socket c; tx_q := q;
     posted := posted c; rx_ops := rx_ops c; tx_ops := tx_ops c;
     wire := wire c; trace := trace c |}.

Definition with_posted (p : list handler) (c : Client) : Client :=
  {| channel := channel c; sys_id := sys_id c; comp_id := comp_id c;
     server_ep := server_ep c; tx_in_progress := tx_in_progress c;
     io_work := io_work c; io_stopped := io_stopped c;
     io_thread := io_thread c; socket := socket c; tx_q := tx_q c;
     posted := p; rx_ops := rx_ops c; tx_ops := tx_ops c;
     wire := wire c; trace := trace c |}.

Definition with_rx_ops (n : nat) (c : Client) : Client :=
  {| channel := channel c; sys_id := sys_id c; comp_id := comp_id c;
     server_ep := server_ep c; tx_in_progress := tx_in_progress c;
     io_work := io_work c; io_stopped := io_stopped c;
     io_thread := io_thread c; socket := socket c; tx_q := tx_q c;
     posted := posted c; rx_ops := n; tx_ops := tx_ops c;
     wire := wire c; trace := trace c |}.

Definition with_tx_ops (ops : list (list byte)) (c : Client) : Client :=
  {| channel := channel c; sys_id := sys_id c; comp_id := comp_id c;
     server_ep := server_ep c; tx_in_progress := tx_in_progress c;
     io_work := io_work c; io_stopped := io_stopped c;
     io_thread := io_thread c; socket := socket c; tx_q := tx_q c;
     posted := posted c; rx_ops := rx_ops c; tx_ops := ops;
     wire := wire c; trace := trace c |}.

Definition with_wire (w : list byte) (c : Client) : Client :=
  {| channel := channel c; sys_id := sys_id c; comp_id := comp_id c;
     server_ep := server_ep c; tx_in_progress := tx_in_progress c;
     io_work := io_work c; io_stopped := io_stopped c;
     io_thread := io_thread c; socket := socket c; tx_q := tx_q c;
     posted := posted c; rx_ops := rx_ops c; tx_ops := tx_ops c;
     wire := w; trace := trace c |}.

Definition with_trace (t : list action) (c : Client) : Client :=
  {| channel := channel c; sys_id := sys_id c; comp_id := comp_id c;
     server_ep := server_ep c; tx_in_progress := tx_in_progress c;
     io_work := io_work c; io_stopped := io_stopped c;
     io_thread := io_thread c; socket := socket c; tx_q := tx_q c;
     posted := posted c; rx_ops := rx_ops c; tx_ops := tx_ops c;
     wire := wire c; trace := t |}.

Definition with_io_thread (j : bool) (c : Client) : Client :=
  {| channel := channel c; sys_id := sys_id c; comp_id := comp_id c;
     server_ep := server_ep c; tx_in_progress := tx_in_progress c;
     io_work := io_work c; io_stopped := io_stopped c;
     io_thread := j; socket := socket c; tx_q := tx_q c;
     posted := posted c; rx_ops := rx_ops c; tx_ops := tx_ops c;
     wire := wire c; trace := trace c |}.

Definition act (a : action) (c : Client) : Client :=
  with_trace (trace c ++ [a]) c.

(** Modelled from the spec: [is_open()] is declared in the class header,
    which is not part of the source tree; the spec ties a client's
    liveness to its socket being open. *)
Definition is_open (c : Client) : bool := socket c.

(** *** Constructors *)

(** [MAVConnTCPClient(system_id, component_id, server_host, server_port)].
    [chan] is the channel number the base class allocates, [r] what the
    resolver answers for [server_host], [connect_ok] whether
    [socket.open] and [socket.connect] both succeed. *)
Definition new_client (system_id component_id chan : Z)
    (r : resolve_result) (server_port : Z) (connect_ok : bool)
    : construction Client :=
  let '(resolved, ep) := resolve_address_tcp r server_port endpoint_default in
  if negb resolved then DeviceError "tcp: resolve"%string
  else if negb connect_ok then DeviceError "tcp"%string
  else Constructed
    {| channel := chan; sys_id := system_id; comp_id := component_id;
       server_ep := ep;
       tx_in_progress := Some false;
       io_work := true; io_stopped := false;
       io_thread := true;
       socket := true;
       tx_q := [];
       posted := [do_recv_h];
       rx_ops := 0%nat; tx_ops := []; wire := []; trace := [] |}.

(** [MAVConnTCPClient(system_id, component_id, server_io, server_channel,
    client_sock, client_ep)]: the socket is moved in with the state it
    has, [do_recv] is posted on the server's io_service (the server model
    records that), and [tx_in_progress], absent from the initialiser
    list, is left as it was allocated. *)
Definition new_accepted (system_id component_id chan : Z)
    (client_sock : bool) (client_ep : endpoint) : Client :=
  {| channel := chan; sys_id := system_id; comp_id := component_id;
     server_ep := client_ep;
     tx_in_progress := None;
     io_work := false; io_stopped := false;
     io_thread := false;
     socket := client_sock;
     tx_q := [];
     posted := [];
     rx_ops := 0%nat; tx_ops := []; wire := []; trace := [] |}.

(** *** Operations *)

(** The statements of [close] between the early return and the join. *)
Definition teardown (c : Client) : Client :=
  act (Emit port_closed)
    (act TxClear
       (act SocketClose
          (act IoStop
             {| channel := channel c; sys_id := sys_id c; comp_id := comp_id c;
                server_ep := server_ep c; tx_in_progress := tx_in_progress c;
                io_work := false; io_stopped := true;
                io_thread := io_thread c; socket := false; tx_q := [];
                posted := posted c; rx_ops := rx_ops c; tx_ops := tx_ops c;
                wire := wire c; trace := trace c |}))).

(** [io_thread.join()], reached when [io_thread.joinable()]: called by the
    thread [io_thread] stands for, it throws [std::system_error]
    (resource_deadlock_would_occur); called by another thread it returns
    once [io_service::run], which [close] has stopped, has returned. *)
Definition join (self : thread) (c : Client) : outcome Client :=
  match self with
  | IoThread => Fail SystemError c
  | External => Ok (act Join (with_io_thread false c))
  end.

(** [MAVConnTCPClient::close], executed by thread [self]. *)
Definition close (self : thread) (c : Client) : outcome Client :=
  if negb (socket c) then Ok c
  else
    let c := teardown c in
    if io_thread c then join self c else Ok c.

(** [~MAVConnTCPClient] *)
Definition destroy (self : thread) (c : Client) : outcome Client := close self c.

(** [MAVConnTCPClient::send_bytes] *)
Definition send_bytes (bytes : list byte) (c : Client) : outcome Client :=
  if negb (is_open c) then Fail AssertionFailed c
  else
    let buf := MsgBuffer_of_bytes bytes in
    Ok (with_posted (posted c ++ [do_send_h true]) (with_tx_q (tx_q c ++ [buf]) c)).

(** [MAVConnTCPClient::do_recv] *)
Definition do_recv (c : Client) : Client := with_rx_ops (S (rx_ops c)) c.

(** [MAVConnTCPClient::do_send].  [&&] evaluates [tx_in_progress] only
    when [check_tx_state] holds. *)
Definition do_send (check_tx_state : bool) (c : Client) : outcome Client :=
  let start (c : Client) : outcome Client :=
    match tx_q c with
    | [] => Ok c
    | buf :: _ => Ok (with_tx_ops (tx_ops c ++ [buffer buf]) c)
    end in
  if check_tx_state then
    match tx_in_progress c with
    | None => Fail IndeterminateRead c
    | Some true => Ok c
    | Some false => start c
    end
  else start c.

(** [MAVConnTCPClient::async_send_end]; handlers run on the I/O thread. *)
Definition async_send_end (error : bool) (bytes_transferred : Z) (c : Client)
    : outcome Client :=
  if error then close IoThread c
  else
    match tx_q c with
    | [] => Ok c
    | buf :: rest =>
        let buf := advance buf bytes_transferred in
        let c := if nbytes buf =? 0 then with_tx_q rest c
                 else with_tx_q (buf :: rest) c in
        match tx_q c with
        | [] => Ok c
        | _ :: _ => do_send false c
        end
    end.

(** *** The environment: io_service and socket *)

(** The I/O thread takes the oldest posted handler and runs it; a stopped
    io_service runs none. *)
Definition run_posted (c : Client) : outcome Client :=
  if io_stopped c then Ok c
  else
    match posted c with
    | [] => Ok c
    | h :: rest =>
        let c := with_posted rest c in
        match h with
        | do_recv_h => Ok (do_recv c)
        | do_send_h check_tx_state => do_send check_tx_state c
        end
    end.

(** The oldest outstanding send writes the first [n] bytes of its view (all
    of it when [n] is larger) and its completion handler runs with that
    count. *)
Definition write_done (n : nat) (c : Client) : outcome Client :=
  match tx_ops c with
  | [] => Ok c
  | w :: rest =>
      let sent := firstn n w in
      async_send_end false (Z.of_nat (List.length sent))
        (with_wire (wire c ++ sent) (with_tx_ops rest c))
  end.

(** The oldest outstanding send fails. *)
Definition write_error (c : Client) : outcome Client :=
  match tx_ops c with
  | [] => Ok c
  | _ :: rest => async_send_end true 0 (with_tx_ops rest c)
  end.

(** *** The codec-dependent part: send_message and the receive path *)

Section Codec.

(** The external MAVLink codec.  [mavlink_status_t] is the parser state
    the codec keeps per channel. *)
Variable MAVLINK_CRC_EXTRA : bool.
Variable mavlink_crcs : Z -> Z.
Variable mavlink_finalize_message_chan :
  mavlink_message_t -> Z -> Z -> Z -> Z -> option Z -> mavlink_message_t.
Variable mavlink_msg_to_send_buffer : mavlink_message_t -> list byte.
Variable mavlink_status_t : Type.
Variable mavlink_parse_char :
  Z -> byte -> mavlink_status_t -> mavlink_status_t * option mavlink_message_t.

(** Modelled from the spec: [new MsgBuffer(msg)] holds the message's
    serialization, cursor at the start (the constructor is in the
    missing header). *)
Definition MsgBuffer_of_message (msg : mavlink_message_t) : MsgBuffer :=
  {| data := mavlink_msg_to_send_buffer msg; pos := 0 |}.

(** [MAVConnTCPClient::send_message]; [None] is the null pointer. *)
Definition send_message (message : option mavlink_message_t)
    (sysid compid : Z) (c : Client) : outcome Client :=
  if negb (is_open c) then Fail AssertionFailed c
  else
    match message with
    | None => Fail AssertionFailed c
    | Some message =>
        let '(buf, c) :=
          if negb (m_sysid message =? sysid) || negb (m_compid message =? compid)
          then
            let msg := message in
            let crc_extra :=
              if MAVLINK_CRC_EXTRA then Some (mavlink_crcs (m_msgid msg))
              else None in
            let msg :=
              mavlink_finalize_message_chan msg sysid compid (channel c)
                (m_len message) crc_extra in
            (MsgBuffer_of_message msg,
             act (Finalize message sysid compid (channel c) (m_len message)) c)
          else (MsgBuffer_of_message message, c) in
        Ok (with_posted (posted c ++ [do_send_h true])
              (with_tx_q (tx_q c ++ [buf]) c))
    end.

(** The loop of [async_receive_end]: every byte goes to the parser, every
    message it completes is emitted at once. *)
Definition feed (st_c : mavlink_status_t * Client) (b : byte)
    : mavlink_status_t * Client :=
  let '(st, c) := st_c in
  let '(st, parsed) := mavlink_parse_char (channel c) b st in
  match parsed with
  | Some message =>
      (st, act (Emit (message_received message (m_sysid message)
                        (m_compid message))) c)
  | None => (st, c)
  end.

(** [MAVConnTCPClient::async_receive_end]; [received] is the part of
    [rx_buf] that was filled. *)
Definition async_receive_end (error : bool) (received : list byte)
    (st_c : mavlink_status_t * Client)
    : outcome (mavlink_status_t * Client) :=
  let '(st, c) := st_c in
  if error then
    match close IoThread c with
    | Ok c => Ok (st, c)
    | Fail f c => Fail f (st, c)
    end
  else
    let '(st, c) := fold_left feed received (st, c) in
    Ok (st, do_recv c).

(** *** Everything that can happen to a client channel *)

Inductive event : Type :=
| Call_send_bytes (bytes : list byte)
| Call_send_message (message : option mavlink_message_t) (sysid compid : Z)
| Call_close (self : thread)
| Io_run_posted
| Io_write_done (n : nat)
| Io_write_error
| Io_recv_done (received : list byte)
| Io_recv_error.

Definition on_client (st : mavlink_status_t) (o : outcome Client)
    : outcome (mavlink_status_t * Client) :=
  match o with
  | Ok c => Ok (st, c)
  | Fail f c => Fail f (st, c)
  end.

(** A completed or failed receive takes the outstanding operation away
    and runs its handler; without one nothing happens. *)
Definition recv_completes (error : bool) (received : list byte)
    (st_c : mavlink_status_t * Client)
    : outcome (mavlink_status_t * Client) :=
  let '(st, c) := st_c in
  match rx_ops c with
  | O => Ok (st, c)
  | S n => async_receive_end error received (st, with_rx_ops n c)
  end.

Definition step (e : event) (st_c : mavlink_status_t * Client)
    : outcome (mavlink_status_t * Client) :=
  let '(st, c) := st_c in
  match e with
  | Call_send_bytes bytes => on_client st (send_bytes bytes c)
  | Call_send_message message sysid compid =>
      on_client st (send_message message sysid compid c)
  | Call_close self => on_client st (close self c)
  | Io_run_posted => on_client st (run_posted c)
  | Io_write_done n => on_client st (write_done n c)
  | Io_write_error => on_client st (write_error c)
  | Io_recv_done received => recv_completes false received (st, c)
  | Io_recv_error => recv_completes true [] (st, c)
  end.

(** A run stops at the first call that does not return. *)
Fixpoint run (es : list event) (st_c : mavlink_status_t * Client)
    : outcome (mavlink_status_t * Client) :=
  match es with
  | [] => Ok st_c
  | e :: es =>
      match step e st_c with
      | Ok st_c => run es st_c
      | Fail f st_c => Fail f st_c
      end
  end.

End Codec.

End MAVConnTCPClient.

(** ** Server channel *)

Module MAVConnTCPServer.

Module Client := MAVConnTCPClient.
Abbreviation Client := MAVConnTCPClient.Client.

(** An element of [client_list]: the pointer and the object it points to,
    which the server owns. *)
Record entry : Type := { instp : Z; obj : Client }.

(** What is posted on the server's io_service: its own [do_accept] and the
    [do_recv] of each accepted client. *)
Inductive handler : Type :=
| do_accept_h
| client_do_recv_h (instp : Z).

Record Server : Type := {
  channel : Z;
  sys_id : Z;
  comp_id : Z;
  bind_ep : endpoint;
  io_stopped : bool;              (* io_service.stop() was called *)
  io_thread : bool;               (* io_thread.joinable() *)
  acceptor : bool;                (* acceptor.is_open() *)
  client_sock : bool;             (* client_sock.is_open() *)
  client_ep : endpoint;
  accept_ops : nat;               (* async_accept operations outstanding *)
  posted : list handler;
  client_list : list entry;
  trace : list action
}.

Definition with_client_list (l : list entry) (s : Server) : Server :=
  {| channel := channel s; sys_id := sys_id s; comp_id := comp_id s;
     bind_ep := bind_ep s; io_stopped := io_stopped s;
     io_thread := io_thread s; acceptor := acceptor s;
     client_sock := client_sock s; client_ep := client_ep s;
     accept_ops := accept_ops s; posted := posted s;
     client_list := l; trace := trace s |}.

Definition with_client_sock (open : bool) (ep : endpoint) (s : Server) : Server :=
  {| channel := channel s; sys_id := sys_id s; comp_id := comp_id s;
     bind_ep := bind_ep s; io_stopped := io_stopped s;
     io_thread := io_thread s; acceptor := acceptor s;
     client_sock := open; client_ep := ep;
     accept_ops := accept_ops s; posted := posted s;
     client_list := client_list s; trace := trace s |}.

Definition with_accept_ops (n : nat) (s : Server) : Server :=
  {| channel := channel s; sys_id := sys_id s; comp_id := comp_id s;
     bind_ep := bind_ep s; io_stopped := io_stopped s;
     io_thread := io_thread s; acceptor := acceptor s;
     client_sock := client_sock s; client_ep := client_ep s;
     accept_ops := n; posted := posted s;
     client_list := client_list s; trace := trace s |}.

Definition with_posted (p : list handler) (s : Server) : Server :=
  {| channel := channel s; sys_id := sys_id s; comp_id := comp_id s;
     bind_ep := bind_ep s; io_stopped := io_stopped s;
     io_thread := io_thread s; acceptor := acceptor s;
     client_sock := client_sock s; client_ep := client_ep s;
     accept_ops := accept_ops s; posted := p;
     client_list := client_list s; trace := trace s |}.

Definition with_io_thread (j : bool) (s : Server) : Server :=
  {| channel := channel s; sys_id := sys_id s; comp_id := comp_id s;
     bind_ep := bind_ep s; io_stopped := io_stopped s;
     io_thread := j; acceptor := acceptor s;
     client_sock := client_sock s; client_ep := client_ep s;
     accept_ops := accept_ops s; posted := posted s;
     client_list := client_list s; trace := trace s |}.

Definition act (a : action) (s : Server) : Server :=
  {| channel := channel s; sys_id := sys_id s; comp_id := comp_id s;
     bind_ep := bind_ep s; io_stopped := io_stopped s;
     io_thread := io_thread s; acceptor := acceptor s;
     client_sock := client_sock s; client_ep := client_ep s;
     accept_ops := accept_ops s; posted := posted s;
     client_list := client_list s; trace := trace s ++ [a] |}.

(** Modelled from the spec: [is_open()] of the server is in the missing
    header; the spec gives server close "the same check", on the
    listening socket. *)
Definition is_open (s : Server) : bool := acceptor s.

(** [MAVConnTCPServer(system_id, component_id, server_host, server_port)];
    [listen_ok]: open, set_option, bind and listen all succeed. *)
Definition new_server (system_id component_id chan : Z)
    (r : resolve_result) (server_port : Z) (listen_ok : bool)
    : construction Server :=
  let '(resolved, ep) := resolve_address_tcp r server_port endpoint_default in
  if negb resolved then DeviceError "tcp-l: resolve"%string
  else if negb listen_ok then DeviceError "tcp-l"%string
  else Constructed
    {| channel := chan; sys_id := system_id; comp_id := component_id;
       bind_ep := ep;
       io_stopped := false;
       io_thread := true;
       acceptor := true;
       client_sock := false; client_ep := endpoint_default;
       accept_ops := 0%nat;
       posted := [do_accept_h];
       client_list := [];
       trace := [] |}.

(** [std::for_each] over [client_list] with a body that works on the
    pointed-to object; it stops where the body does not return. *)
Fixpoint for_each (body : Client -> outcome Client) (l : list entry)
    : outcome (list entry) :=
  match l with
  | [] => Ok []
  | en :: rest =>
      match body (obj en) with
      | Fail f c => Fail f ({| instp := instp en; obj := c |} :: rest)
      | Ok c =>
          match for_each body rest with
          | Ok rest => Ok ({| instp := instp en; obj := c |} :: rest)
          | Fail f rest => Fail f ({| instp := instp en; obj := c |} :: rest)
          end
      end
  end.

Definition on_clients (s : Server) (o : outcome (list entry)) : outcome Server :=
  match o with
  | Ok l => Ok (with_client_list l s)
  | Fail f l => Fail f (with_client_list l s)
  end.

(** The statements of [close] after the clients are gone, up to the join. *)
Definition teardown (s : Server) : Server :=
  act (Emit port_closed)
    (act SocketClose
       (act IoStop
          {| channel := channel s; sys_id := sys_id s; comp_id := comp_id s;
             bind_ep := bind_ep s; io_stopped := true;
             io_thread := io_thread s; acceptor := false;
             client_sock := client_sock s; client_ep := client_ep s;
             accept_ops := accept_ops s; posted := posted s;
             client_list := []; trace := trace s |})).

Definition join (self : thread) (s : Server) : outcome Server :=
  match self with
  | IoThread => Fail SystemError s
  | External => Ok (act Join (with_io_thread false s))
  end.

(** [MAVConnTCPServer::close], executed by thread [self].  Each client has
    its [port_closed] slots disconnected, is closed, and is deleted, which
    runs its destructor. *)
Definition close (self : thread) (s : Server) : outcome Server :=
  if negb (acceptor s) then Ok s
  else
    match for_each (fun c => Client.close self c >>= Client.destroy self)
                   (client_list s) with
    | Fail f l => Fail f (with_client_list l s)
    | Ok _ =>
        let s := teardown s in
        if io_thread s then join self s else Ok s
    end.

(** [~MAVConnTCPServer] *)
Definition destroy (self : thread) (s : Server) : outcome Server := close self s.

(** [MAVConnTCPServer::send_bytes] *)
Definition send_bytes (bytes : list byte) (s : Server) : outcome Server :=
  on_clients s (for_each (Client.send_bytes bytes) (client_list s)).

(** [MAVConnTCPServer::do_accept] *)
Definition do_accept (s : Server) : Server := with_accept_ops (S (accept_ops s)) s.

(** [MAVConnTCPServer::recv_message] *)
Definition recv_message (message : mavlink_message_t) (sysid compid : Z)
    (s : Server) : Server :=
  act (Emit (message_received message sysid compid)) s.

(** [client_list.remove(instp)] *)
Definition remove (p : Z) (l : list entry) : list entry :=
  filter (fun en => negb (instp en =? p)) l.

Definition lookup (p : Z) (l : list entry) : option Client :=
  match find (fun en => instp en =? p) l with
  | Some en => Some (obj en)
  | None => None
  end.

(** [MAVConnTCPServer::client_closed]: the slot of a client's
    [port_closed]; it runs on the server's I/O thread.  [delete] runs the
    client's destructor. *)
Definition client_closed (p : Z) (s : Server) : outcome Server :=
  match lookup p (client_list s) with
  | None => Ok s
  | Some c =>
      let s := with_client_list (remove p (client_list s)) s in
      match Client.destroy IoThread c with
      | Ok _ => Ok s
      | Fail f _ => Fail f s
      end
  end.

(** [MAVConnTCPServer::async_accept_end].  [avail] is what
    [channes_available()] returns, [chan] the channel the new client is
    given by its base class, [p] the address [new] returns. *)
Definition async_accept_end (error : bool) (avail chan p : Z) (s : Server)
    : outcome Server :=
  if error then close IoThread s
  else if avail <=? 0 then Ok (with_client_sock false (client_ep s) s)
  else
    let c := Client.new_accepted (sys_id s) (comp_id s) chan
               (client_sock s) (client_ep s) in
    (* the socket was moved out of [client_sock]; the client's constructor
       posted its [do_recv] on this io_service *)
    let s := with_client_sock false (client_ep s) s in
    let s := with_posted (posted s ++ [client_do_recv_h p]) s in
    let s := with_client_list (client_list s ++ [{| instp := p; obj := c |}]) s in
    Ok (do_accept s).

Section Codec.

Variable MAVLINK_CRC_EXTRA : bool.
Variable mavlink_crcs : Z -> Z.
Variable mavlink_finalize_message_chan :
  mavlink_message_t -> Z -> Z -> Z -> Z -> option Z -> mavlink_message_t.
Variable mavlink_msg_to_send_buffer : mavlink_message_t -> list byte.
Variable mavlink_status_t : Type.
Variable mavlink_parse_char :
  Z -> byte -> mavlink_status_t -> mavlink_status_t * option mavlink_message_t.

(** [MAVConnTCPServer::send_message] *)
Definition send_message (message : option mavlink_message_t)
    (sysid compid : Z) (s : Server) : outcome Server :=
  on_clients s
    (for_each (Client.send_message MAVLINK_CRC_EXTRA mavlink_crcs
                 mavlink_finalize_message_chan mavlink_msg_to_send_buffer
                 message sysid compid)
              (client_list s)).

(** The codec keeps one parser state per channel number. *)
Definition parsers : Type := Z -> mavlink_status_t.

Definition set_parser (chan : Z) (st : mavlink_status_t) (ps : parsers)
    : parsers :=
  fun ch => if ch =? chan then st else ps ch.

(** The completions of an accepted client's socket operations; they are
    dispatched by the server's io_service.  (The client's own
    io_service, on which its [do_send] is posted, is run by no thread.) *)
Inductive completion : Type :=
| Write_done (n : nat)
| Write_error
| Recv_done (received : list byte)
| Recv_error.

Definition client_event (k : completion) : Client.event :=
  match k with
  | Write_done n => Client.Io_write_done n
  | Write_error => Client.Io_write_error
  | Recv_done received => Client.Io_recv_done received
  | Recv_error => Client.Io_recv_error
  end.

(** [*instp = c] *)
Definition store (p : Z) (c : Client) (l : list entry) : list entry :=
  map (fun en => if instp en =? p then {| instp := p; obj := c |} else en) l.

(** The slots the server connected in [async_accept_end], called for
    what client [p] emitted: [recv_message] and [client_closed].  A slot
    runs inside the emission.  [port_closed] is emitted by the client's
    [close] before its last statements, so [client_closed] removes and
    deletes the client while the client's [close] is still running;
    [close] goes on on the deleted object, testing its
    [io_thread.joinable()] and releasing its mutex. *)
Fixpoint slots (p : Z) (emitted : list action) (s : Server) : outcome Server :=
  match emitted with
  | [] => Ok s
  | Emit (message_received message sysid compid) :: emitted =>
      slots p emitted (recv_message message sysid compid s)
  | Emit port_closed :: _ =>
      match client_closed p s with
      | Ok s => Fail UseAfterFree s
      | Fail f s => Fail f s
      end
  | _ :: emitted => slots p emitted s
  end.

(** A completion handler of client [p] runs; the slots are given what it
    emitted, in the order of the emissions.  ([recv_message] does not
    touch the client, so running it here is running it inside the
    emission.) *)
Definition client_completes (p : Z) (k : completion)
    (ps_s : parsers * Server) : outcome (parsers * Server) :=
  let '(ps, s) := ps_s in
  match lookup p (client_list s) with
  | None => Ok (ps, s)
  | Some c =>
      let chan := Client.channel c in
      match Client.step MAVLINK_CRC_EXTRA mavlink_crcs
              mavlink_finalize_message_chan mavlink_msg_to_send_buffer
              mavlink_parse_char (client_event k) (ps chan, c) with
      | Fail f (st, c') =>
          Fail f (set_parser chan st ps,
                  with_client_list (store p c' (client_list s)) s)
      | Ok (st, c') =>
          let s := with_client_list (store p c' (client_list s)) s in
          let emitted := skipn (List.length (Client.trace c)) (Client.trace c') in
          match slots p emitted s with
          | Ok s => Ok (set_parser chan st ps, s)
          | Fail f s => Fail f (set_parser chan st ps, s)
          end
      end
  end.

(** The server's I/O thread runs the oldest posted handler. *)
Definition run_posted (s : Server) : Server :=
  if io_stopped s then s
  else
    match posted s with
    | [] => s
    | h :: rest =>
        let s := with_posted rest s in
        match h with
        | do_accept_h => do_accept s
        | client_do_recv_h p =>
            match lookup p (client_list s) with
            | Some c => with_client_list (store p (Client.do_recv c) (client_list s)) s
            | None => s
            end
        end
    end.

(** An outstanding accept completes: with a connection from [peer], or
    with an error. *)
Definition accept_completes (error : bool) (peer : endpoint)
    (avail chan p : Z) (s : Server) : outcome Server :=
  match accept_ops s with
  | O => Ok s
  | S n =>
      let s := with_accept_ops n s in
      if error then async_accept_end true avail chan p s
      else async_accept_end false avail chan p (with_client_sock true peer s)
  end.

Inductive event : Type :=
| Call_send_bytes (bytes : list byte)
| Call_send_message (message : option mavlink_message_t) (sysid compid : Z)
| Call_close (self : thread)
| Io_run_posted
| Io_accept_done (peer : endpoint) (avail chan p : Z)
| Io_accept_error
| Io_client (p : Z) (k : completion).

Definition on_server (ps : parsers) (o : outcome Server)
    : outcome (parsers * Server) :=
  match o with
  | Ok s => Ok (ps, s)
  | Fail f s => Fail f (ps, s)
  end.

(** Once the io_service is stopped no handler runs any more. *)
Definition step (e : event) (ps_s : parsers * Server)
    : outcome (parsers * Server) :=
  let '(ps, s) := ps_s in
  match e with
  | Call_send_bytes bytes => on_server ps (send_bytes bytes s)
  | Call_send_message message sysid compid =>
      on_server ps (send_message message sysid compid s)
  | Call_close self => on_server ps (close self s)
  | Io_run_posted => Ok (ps, run_posted s)
  | Io_accept_done peer avail chan p =>
      if io_stopped s then Ok (ps, s)
      else on_server ps (accept_completes false peer avail chan p s)
  | Io_accept_error =>
      if io_stopped s then Ok (ps, s)
      else on_server ps (accept_completes true endpoint_default 0 0 0 s)
  | Io_client p k =>
      if io_stopped s then Ok (ps, s) else client_completes p k (ps, s)
  end.

Fixpoint run (es : list event) (ps_s : parsers * Server)
    : outcome (parsers * Server) :=
  match es with
  | [] => Ok ps_s
  | e :: es =>
      match step e ps_s with
      | Ok ps_s => run es ps_s
      | Fail f ps_s => Fail f ps_s
      end
  end.

End Codec.

End MAVConnTCPServer.

(** ** [MAVConnTCPClient::close] called by two threads

    The calls above run one at a time.  Here the statements of [close] are
    steps that two threads take in any order: the external thread, and
    the channel's I/O thread calling [close] from an error handler.
    [lock_guard lock(mutex)] takes the recursive mutex or waits for it and
    releases it when the scope is left, also by an exception;
    [io_thread.join()] waits until the I/O thread has finished. *)

Module TwoThreads.

(** Where a thread is in its call of [close]. *)
Inductive pc : Type :=
| AtLock      (* lock_guard lock(mutex); *)
| AtCheck     (* if (!socket.is_open()) return; ... port_closed(); *)
| AtJoin      (* io_thread.join(); *)
| AtUnlock    (* the end of the scope of [lock] *)
| Returned
| Thrown.

Record world : Type := {
  chan : MAVConnTCPClient.Client;
  mutex : option (thread * nat);   (* the owner and how many times it locked *)
  pc_external : pc;
  pc_io : pc
}.

Definition pc_of (t : thread) (w : world) : pc :=
  match t with
  | External => pc_external w
  | IoThread => pc_io w
  end.

Definition set_pc (t : thread) (p : pc) (w : world) : world :=
  match t with
  | External =>
      {| chan := chan w; mutex := mutex w; pc_external := p; pc_io := pc_io w |}
  | IoThread =>
      {| chan := chan w; mutex := mutex w; pc_external := pc_external w; pc_io := p |}
  end.

Definition with_chan (c : MAVConnTCPClient.Client) (w : world) : world :=
  {| chan := c; mutex := mutex w; pc_external := pc_external w; pc_io := pc_io w |}.

Definition with_mutex (m : option (thread * nat)) (w : world) : world :=
  {| chan := chan w; mutex := m; pc_external := pc_external w; pc_io := pc_io w |}.

Definition same_thread (t u : thread) : bool :=
  match t, u with
  | External, External | IoThread, IoThread => true
  | _, _ => false
  end.

(** [std::recursive_mutex::lock]: [None] when the caller has to wait. *)
Definition lock (t : thread) (m : option (thread * nat))
    : option (option (thread * nat)) :=
  match m with
  | None => Some (Some (t, 1%nat))
  | Some (owner, n) =>
      if same_thread owner t then Some (Some (t, S n)) else None
  end.

(** [std::recursive_mutex::unlock] *)
Definition unlock (m : option (thread * nat)) : option (thread * nat) :=
  match m with
  | Some (owner, S (S n)) => Some (owner, S n)
  | _ => None
  end.

(** The thread has left [close]; for the I/O thread, whose io_service
    [close] has stopped, that ends [io_service::run] and the thread. *)
Definition finished (p : pc) : bool :=
  match p with
  | Returned | Thrown => true
  | _ => false
  end.

(** Thread [t] takes its next step; [None] when it waits or has left. *)
Definition advance (t : thread) (w : world) : option world :=
  match pc_of t w with
  | AtLock =>
      match lock t (mutex w) with
      | Some m => Some (set_pc t AtCheck (with_mutex m w))
      | None => None
      end
  | AtCheck =>
      if negb (MAVConnTCPClient.socket (chan w)) then Some (set_pc t AtUnlock w)
      else
        let c := MAVConnTCPClient.teardown (chan w) in
        Some (set_pc t (if MAVConnTCPClient.io_thread c then AtJoin else AtUnlock)
                (with_chan c w))
  | AtJoin =>
      match t with
      | IoThread => Some (set_pc t Thrown (with_mutex (unlock (mutex w)) w))
      | External =>
          if finished (pc_io w) then
            Some (set_pc t AtUnlock
                    (with_chan (MAVConnTCPClient.act Join
                                  (MAVConnTCPClient.with_io_thread false (chan w)))
                       w))
          else None
      end
  | AtUnlock => Some (set_pc t Returned (with_mutex (unlock (mutex w)) w))
  | Returned | Thrown => None
  end.

(** The threads step in the given order; [None] if one is asked to step
    when it cannot. *)
Fixpoint schedule (ts : list thread) (w : world) : option world :=
  match ts with
  | [] => Some w
  | t :: ts =>
      match advance t w with
      | Some w => schedule ts w
      | None => None
      end
  end.

(** No thread can step and neither has left [close]. *)
Definition deadlocked (w : world) : Prop :=
  advance External w = None /\ advance IoThread w = None
  /\ finished (pc_external w) = false /\ finished (pc_io w) = false.

(** Thread [t] calls [close] on [c] while the other thread is not in
    [close] (if it is the I/O thread, it has finished). *)
Definition alone (t : thread) (c : MAVConnTCPClient.Client) : world :=
  set_pc t AtLock
    {| chan := c; mutex := None; pc_external := Returned; pc_io := Returned |}.

(** Both threads call [close] on [c]. *)
Definition both (c : MAVConnTCPClient.Client) : world :=
  {| chan := c; mutex := None; pc_external := AtLock; pc_io := AtLock |}.

End TwoThreads.

(** ** Reading an outcome *)

(** How a call that did not return failed. *)
Definition failure_of {A : Type} (o : outcome A) : option failure :=
  match o with
  | Ok _ => None
  | Fail f _ => Some f
  end.

(** ** Reading a trace *)

Definition is_port_closed (a : action) : bool :=
  match a with
  | Emit port_closed => true
  | _ => false
  end.

(** How many times [port_closed] was fired. *)
Definition port_closed_count (t : list action) : nat :=
  List.length (filter is_port_closed t).

Definition is_finalize (a : action) : bool :=
  match a with
  | Finalize _ _ _ _ _ => true
  | _ => false
  end.

(** How many times the codec was asked to finalize a message. *)
Definition finalize_count (t : list action) : nat :=
  List.length (filter is_finalize t).

(** ** Reading a byte stream

    What the codec makes of a whole stream: the parser's state after it
    and the messages it completed, in order.  The receive path is compared
    with it. *)

Section Decode.

Variable mavlink_status_t : Type.
Variable mavlink_parse_char :
  Z -> byte -> mavlink_status_t -> mavlink_status_t * option mavlink_message_t.

Fixpoint decode (chan : Z) (received : list byte) (st : mavlink_status_t)
    : mavlink_status_t * list mavlink_message_t :=
  match received with
  | [] => (st, [])
  | b :: received =>
      let '(st, parsed) := mavlink_parse_char chan b st in
      let '(st, messages) := decode chan received st in
      (st, match parsed with
           | Some message => message :: messages
           | None => messages
           end)
  end.

End Decode.

(** [message_received(&message, message.sysid, message.compid)] *)
Definition announce (message : mavlink_message_t) : action :=
  Emit (message_received message (m_sysid message) (m_compid message)).

(** ** Counting what is posted *)

Definition is_do_recv (h : handler) : bool :=
  match h with
  | do_recv_h => true
  | do_send_h _ => false
  end.

(** How many [do_recv] are posted on a client's io_service. *)
Definition recv_posted (l : list handler) : nat :=
  List.length (filter is_do_recv l).

Definition is_do_accept (h : MAVConnTCPServer.handler) : bool :=
  match h with
  | MAVConnTCPServer.do_accept_h => true
  | MAVConnTCPServer.client_do_recv_h _ => false
  end.

(** How many [do_accept] are posted on a server's io_service. *)
Definition accept_posted (l : list MAVConnTCPServer.handler) : nat :=
  List.length (filter is_do_accept l).

(** ** Two threads in [close] at once

    Where the two calls can be when both threads call [close] on an open
    client-mode channel: the positions of the external and of the I/O
    thread, the mutex, and whether the socket is open and the thread
    joinable. *)
Definition close_race (w : TwoThreads.world) : bool :=
  match TwoThreads.pc_external w, TwoThreads.pc_io w, TwoThreads.mutex w,
        MAVConnTCPClient.socket (TwoThreads.chan w),
        MAVConnTCPClient.io_thread (TwoThreads.chan w) with
  | TwoThreads.AtLock, TwoThreads.AtLock, None, true, true => true
  | TwoThreads.AtCheck, TwoThreads.AtLock, Some (External, 1%nat), true, true => true
  | TwoThreads.AtJoin, TwoThreads.AtLock, Some (External, 1%nat), false, true => true
  | TwoThreads.AtLock, TwoThreads.AtCheck, Some (IoThread, 1%nat), true, true => true
  | TwoThreads.AtLock, TwoThreads.AtJoin, Some (IoThread, 1%nat), false, true => true
  | TwoThreads.AtLock, TwoThreads.Thrown, None, false, true => true
  | TwoThreads.AtCheck, TwoThreads.Thrown, Some (External, 1%nat), false, true => true
  | TwoThreads.AtUnlock, TwoThreads.Thrown, Some (External, 1%nat), false, true => true
  | TwoThreads.Returned, TwoThreads.Thrown, None, false, true => true
  | _, _, _, _, _ => false
  end.

(** ** Invariants *)

(** What holds of a server from its construction on: [port_closed] was
    fired once if the acceptor is closed and never if it is open; a closed
    server has no client left and a stopped io_service; every registered
    client is open and has no I/O thread of its own. *)
Definition server_inv (s : MAVConnTCPServer.Server) : Prop :=
  port_closed_count (MAVConnTCPServer.trace s)
  = (if MAVConnTCPServer.acceptor s then 0%nat else 1%nat)
  /\ (MAVConnTCPServer.acceptor s = false ->
      MAVConnTCPServer.client_list s = []
      /\ MAVConnTCPServer.io_stopped s = true)
  /\ Forall (fun en =>
               MAVConnTCPClient.socket (MAVConnTCPServer.obj en) = true
               /\ MAVConnTCPClient.io_thread (MAVConnTCPServer.obj en) = false)
            (MAVConnTCPServer.client_list s).

(** No accept is outstanding and none is about to be started. *)
Definition not_accepting (s : MAVConnTCPServer.Server) : Prop :=
  MAVConnTCPServer.accept_ops s = 0%nat
  /\ ~ In MAVConnTCPServer.do_accept_h (MAVConnTCPServer.posted s).

(** An open client with nothing queued, posted or in flight. *)
Definition idle (c : MAVConnTCPClient.Client) : Prop :=
  MAVConnTCPClient.socket c = true
  /\ MAVConnTCPClient.io_stopped c = false
  /\ MAVConnTCPClient.tx_in_progress c = Some false
  /\ MAVConnTCPClient.tx_q c = []
  /\ MAVConnTCPClient.tx_ops c = []
  /\ MAVConnTCPClient.posted c = [].

(** ** Concrete inputs

    A resolver answer, channels as their constructors build them, and a
    small codec to run the codec-dependent calls on. *)

Definition payload_a : list byte := [x01; x02; x03].
Definition payload_b : list byte := [x04; x05; x06].
Definition payload_short : list byte := [x04; x05].

Definition loopback : endpoint := {| address := 2130706433; port := 0 |}.
Definition other_host : endpoint := {| address := 167772161; port := 80 |}.

Definition one_address : resolve_result := {| entries := [loopback]; ec := 0 |}.
Definition two_addresses : resolve_result :=
  {| entries := [other_host; loopback]; ec := 0 |}.

(** The client [MAVConnTCPClient(1, 240, host, 5760)] builds on channel 0
    when the host resolves to [loopback] and the connect succeeds. *)
Definition connected_client : MAVConnTCPClient.Client :=
  {| MAVConnTCPClient.channel := 0;
     MAVConnTCPClient.sys_id := 1;
     MAVConnTCPClient.comp_id := 240;
     MAVConnTCPClient.server_ep := {| address := 2130706433; port := 5760 |};
     MAVConnTCPClient.tx_in_progress := Some false;
     MAVConnTCPClient.io_work := true;
     MAVConnTCPClient.io_stopped := false;
     MAVConnTCPClient.io_thread := true;
     MAVConnTCPClient.socket := true;
     MAVConnTCPClient.tx_q := [];
     MAVConnTCPClient.posted := [do_recv_h];
     MAVConnTCPClient.rx_ops := 0%nat;
     MAVConnTCPClient.tx_ops := [];
     MAVConnTCPClient.wire := [];
     MAVConnTCPClient.trace := [] |}.

(** [connected_client] once its I/O thread has started the receive. *)
Definition receiving_client : MAVConnTCPClient.Client :=
  state_of (MAVConnTCPClient.run_posted connected_client).

(** [connected_client] after [close()] was called from outside. *)
Definition closed_client : MAVConnTCPClient.Client :=
  state_of (MAVConnTCPClient.close External connected_client).

(** The server [MAVConnTCPServer(1, 240, host, 5760)] builds on channel 0. *)
Definition listening_server : MAVConnTCPServer.Server :=
  {| MAVConnTCPServer.channel := 0;
     MAVConnTCPServer.sys_id := 1;
     MAVConnTCPServer.comp_id := 240;
     MAVConnTCPServer.bind_ep := {| address := 2130706433; port := 5760 |};
     MAVConnTCPServer.io_stopped := false;
     MAVConnTCPServer.io_thread := true;
     MAVConnTCPServer.acceptor := true;
     MAVConnTCPServer.client_sock := false;
     MAVConnTCPServer.client_ep := endpoint_default;
     MAVConnTCPServer.accept_ops := 0%nat;
     MAVConnTCPServer.posted := [MAVConnTCPServer.do_accept_h];
     MAVConnTCPServer.client_list := [];
     MAVConnTCPServer.trace := [] |}.

(** [listening_server] after [close()] was called from outside. *)
Definition closed_server : MAVConnTCPServer.Server :=
  state_of (MAVConnTCPServer.close External listening_server).

(** The client a server of identity (1, 240) builds on channel 1 for a peer
    at [other_host], with its receive outstanding. *)
Definition accepted_client : MAVConnTCPClient.Client :=
  MAVConnTCPClient.do_recv (MAVConnTCPClient.new_accepted 1 240 1 true other_host).

(** A codec small enough to compute with: finalizing stamps the identity
    and a checksum made of it, serializing puts a start byte and the
    identity in front of the payload, and the parser completes a message
    at every zero byte. *)
Definition toy_finalize (msg : mavlink_message_t)
    (sysid compid chan length : Z) (crc_extra : option Z) : mavlink_message_t :=
  {| m_len := length; m_seq := m_seq msg; m_sysid := sysid;
     m_compid := compid; m_msgid := m_msgid msg; m_payload := m_payload msg;
     m_checksum := sysid + compid + chan |}.

Definition toy_byte (z : Z) : byte :=
  match Byte.of_N (Z.to_N (z mod 256)) with
  | Some b => b
  | None => x00
  end.

Definition toy_to_send_buffer (msg : mavlink_message_t) : list byte :=
  xfe :: toy_byte (m_sysid msg) :: toy_byte (m_compid msg) :: m_payload msg.

Definition toy_parse_char (chan : Z) (b : byte) (st : list byte)
    : list byte * option mavlink_message_t :=
  match b with
  | x00 =>
      ([], Some {| m_len := Z.of_nat (List.length st); m_seq := 0;
                   m_sysid := 7; m_compid := 1; m_msgid := 0;
                   m_payload := rev st; m_checksum := 0 |})
  | _ => (b :: st, None)
  end.

Definition heartbeat : mavlink_message_t :=
  {| m_len := 2; m_seq := 0; m_sysid := 1; m_compid := 240; m_msgid := 0;
     m_payload := [x0a; x0b]; m_checksum := 0 |}.

(** ** Schedules

    The calls and I/O events of the runs examined below. *)

(** Runs on the toy codec, every parser starting empty. *)
Definition toy_client_run (es : list (MAVConnTCPClient.event))
    (c : MAVConnTCPClient.Client)
    : outcome (list byte * MAVConnTCPClient.Client) :=
  MAVConnTCPClient.run true (fun _ => 0) toy_finalize toy_to_send_buffer
    toy_parse_char es ([], c).

Definition toy_server_run (es : list (MAVConnTCPServer.event))
    (s : MAVConnTCPServer.Server)
    : outcome ((Z -> list byte) * MAVConnTCPServer.Server) :=
  MAVConnTCPServer.run true (fun _ => 0) toy_finalize toy_to_send_buffer
    toy_parse_char es (fun _ => [], s).

(** One step of the server on the toy codec. *)
Definition toy_server_step (e : MAVConnTCPServer.event)
    (ps_s : (Z -> list byte) * MAVConnTCPServer.Server)
    : outcome ((Z -> list byte) * MAVConnTCPServer.Server) :=
  MAVConnTCPServer.step true (fun _ => 0) toy_finalize toy_to_send_buffer
    toy_parse_char e ps_s.

(** Two [send_bytes] calls made before the I/O thread runs, and then the
    I/O thread running the three handlers posted so far: [do_recv] from
    the constructor and the two [do_send(true)]. *)
Definition two_sends (first second : list byte) : outcome MAVConnTCPClient.Client :=
  Ok connected_client
    >>= MAVConnTCPClient.send_bytes first
    >>= MAVConnTCPClient.send_bytes second
    >>= MAVConnTCPClient.run_posted
    >>= MAVConnTCPClient.run_posted
    >>= MAVConnTCPClient.run_posted.

(** The outstanding writes complete one after the other, the k-th writing
    at most the k-th number of bytes. *)
Fixpoint completions (ns : list nat) (c : MAVConnTCPClient.Client)
    : outcome MAVConnTCPClient.Client :=
  match ns with
  | [] => Ok c
  | n :: ns => MAVConnTCPClient.write_done n c >>= completions ns
  end.

(** One [send_bytes] call, its drain, and the completions of the writes. *)
Definition single_send (bytes : list byte) (ns : list nat)
    (c : MAVConnTCPClient.Client) : outcome MAVConnTCPClient.Client :=
  MAVConnTCPClient.send_bytes bytes c
    >>= MAVConnTCPClient.run_posted
    >>= completions ns.

(** The client's I/O thread starts the receive, and the receive fails (the
    peer closed the connection). *)
Definition peer_disconnects : list MAVConnTCPClient.event :=
  [MAVConnTCPClient.Io_run_posted; MAVConnTCPClient.Io_recv_error].

(** A send, its drain, and the failure of the write. *)
Definition write_fails : list MAVConnTCPClient.event :=
  [MAVConnTCPClient.Call_send_bytes payload_a;
   MAVConnTCPClient.Io_run_posted;
   MAVConnTCPClient.Io_run_posted;
   MAVConnTCPClient.Io_write_error].

(** The server's I/O thread starts the first accept and a peer connects
    while channels are available: the server has one client, at address
    100 on channel 1, and the next accept is outstanding. *)
Definition first_connection : list MAVConnTCPServer.event :=
  [MAVConnTCPServer.Io_run_posted;
   MAVConnTCPServer.Io_accept_done other_host 1 1 100].

(** The first connection, and the server's I/O thread starting the new
    client's receive. *)
Definition first_client_receiving : list MAVConnTCPServer.event :=
  first_connection ++ [MAVConnTCPServer.Io_run_posted].

(** A second peer connects when [channes_available()] is 0. *)
Definition connection_at_capacity : MAVConnTCPServer.event :=
  MAVConnTCPServer.Io_accept_done loopback 0 2 101.

(** The server's I/O thread starts the first accept, which fails. *)
Definition accept_fails : list MAVConnTCPServer.event :=
  [MAVConnTCPServer.Io_run_posted; MAVConnTCPServer.Io_accept_error].

(** Several [send_bytes] calls in a row, nothing else happening. *)
Fixpoint send_all (payloads : list (list byte)) (c : MAVConnTCPClient.Client)
    : outcome MAVConnTCPClient.Client :=
  match payloads with
  | [] => Ok c
  | bytes :: payloads => MAVConnTCPClient.send_bytes bytes c >>= send_all payloads
  end.

(** Several sends, each with its drain and the completions of its writes
    before the next one is made. *)
Fixpoint serial_sends (sends : list (list byte * list nat))
    (c : MAVConnTCPClient.Client) : outcome MAVConnTCPClient.Client :=
  match sends with
  | [] => Ok c
  | (bytes, ns) :: sends => single_send bytes ns c >>= serial_sends sends
  end.

(** A connection: the peer, what [channes_available()] returns when it is
    accepted, and the channel and address its client object is given. *)
Record connection : Type := {
  peer : endpoint;
  avail : Z;
  new_chan : Z;
  new_instp : Z
}.

Definition accepts (conns : list connection) : list MAVConnTCPServer.event :=
  map (fun k => MAVConnTCPServer.Io_accept_done (peer k) (avail k)
                  (new_chan k) (new_instp k))
      conns.

(** The registry entry [async_accept_end] makes for a connection. *)
Definition registered (s : MAVConnTCPServer.Server) (k : connection)
    : MAVConnTCPServer.entry :=
  {| MAVConnTCPServer.instp := new_instp k;
     MAVConnTCPServer.obj :=
       MAVConnTCPClient.new_accepted (MAVConnTCPServer.sys_id s)
         (MAVConnTCPServer.comp_id s) (new_chan k) true (peer k) |}.

(** Bytes in which the toy parser finds two messages, and a third begun. *)
Definition toy_stream : list byte := [x0a; x0b; x00; x0c; x00; x0d].

(** Two sends, the first written in two pieces, the second in one. *)
Definition two_serial_sends : list (list byte * list nat) :=
  [(payload_a, [1; 2]%nat); (payload_b, [3]%nat)].

(** [listening_server] once its I/O thread has started the accept. *)
Definition accepting_server : MAVConnTCPServer.Server :=
  MAVConnTCPServer.run_posted listening_server.

(** Two peers connecting one after the other while channels are left. *)
Definition two_connections : list connection :=
  [ {| peer := other_host; avail := 2; new_chan := 1; new_instp := 100 |};
    {| peer := loopback; avail := 1; new_chan := 2; new_instp := 101 |} ].

(** [close] entered by both threads; the I/O thread goes first and throws
    at the join, and the external thread then finds the socket closed. *)
Definition io_first : list thread :=
  [IoThread; IoThread; IoThread; External; External; External].

Definition world_after (ts : list thread) : TwoThreads.world :=
  match TwoThreads.schedule ts (TwoThreads.both connected_client) with
  | Some w => w
  | None => TwoThreads.both connected_client
  end.

(** * Properties *)

Unset Implicit Arguments.

(** ** The constructors build the concrete channels *)

Lemma connected_client_constructed :
  MAVConnTCPClient.new_client 1 240 0 one_address 5760 true
  = Constructed connected_client.
Proof. reflexivity. Qed.

Lemma listening_server_constructed :
  MAVConnTCPServer.new_server 1 240 0 one_address 5760 true
  = Constructed listening_server.
Proof. reflexivity. Qed.

(** ** Endpoint resolver *)

Lemma last_cons_default {A : Type} (x : A) (l : list A) (d d' : A) :
  last (x :: l) d = last (x :: l) d'.
Proof.
  revert x. induction l as [|y l IH]; intro x; [reflexivity|].
  change (last (y :: l) d = last (y :: l) d'). apply IH.
Qed.

(** The [for_each] leaves the flag set and the last entry in [ep] as soon
    as there is an entry at all. *)
Lemma resolve_fold (p : Z) (l : list endpoint) (acc : bool * endpoint) :
  fold_left (fun (_ : bool * endpoint) (q_ep : endpoint) => (true, set_port q_ep p))
            l acc
  = match l with
    | [] => acc
    | _ :: _ => (true, set_port (last l (snd acc)) p)
    end.
Proof.
  revert acc. induction l as [|q l IH]; intro acc; [reflexivity|].
  cbn [fold_left]. rewrite IH. destruct l as [|q' l]; [reflexivity|].
  f_equal. f_equal. change (last (q :: q' :: l) (snd acc)) with (last (q' :: l) (snd acc)).
  apply last_cons_default.
Qed.

Lemma resolve_address_tcp_cases r p ep :
  (entries r <> [] /\ ec r = 0
   /\ resolve_address_tcp r p ep = (true, set_port (last (entries r) ep) p))
  \/ ((entries r = [] \/ ec r <> 0)
      /\ fst (resolve_address_tcp r p ep) = false).
Proof.
  unfold resolve_address_tcp. rewrite resolve_fold.
  destruct (Z.eqb_spec (ec r) 0) as [E|E]; destruct (entries r) as [|q l];
    cbn [negb fst snd].
  - right. auto.
  - left. repeat split; [discriminate | exact E].
  - right. auto.
  - right. auto.
Qed.

(** C6, as the code has it: [resolve_address_tcp] fails exactly when the
    resolver returns no entry or reports an error; when it succeeds the
    endpoint it leaves in [ep] is the LAST entry of the resolution, with
    its port replaced by the requested one. *)
Theorem resolve_address_tcp_takes_last (r : resolve_result) (p : Z) (ep : endpoint) :
  (fst (resolve_address_tcp r p ep) = false <-> entries r = [] \/ ec r <> 0)
  /\ (fst (resolve_address_tcp r p ep) = true
      -> snd (resolve_address_tcp r p ep) = set_port (last (entries r) ep) p).
Proof.
  unfold resolve_address_tcp. rewrite resolve_fold.
  destruct (Z.eqb_spec (ec r) 0) as [E|E]; destruct (entries r) as [|q l];
    cbn [negb fst snd].
  all: split; [split; intro H|intro H].
  all: try discriminate; try reflexivity;
    try (left; reflexivity); try (right; assumption).
  destruct H as [H|H]; [discriminate | contradiction].
Qed.

Lemma resolve_address_tcp_takes_last_witness :
  snd (resolve_address_tcp two_addresses 5760 endpoint_default)
  = set_port (last (entries two_addresses) endpoint_default) 5760.
Proof.
  apply (resolve_address_tcp_takes_last two_addresses 5760 endpoint_default).
  reflexivity.
Defined.

(** C6, as the spec words it, fails: with two entries the resolver
    succeeds and hands back the second, not the first. *)
Lemma resolve_address_tcp_not_first :
  hd_error (entries two_addresses) = Some other_host
  /\ fst (resolve_address_tcp two_addresses 5760 endpoint_default) = true
  /\ snd (resolve_address_tcp two_addresses 5760 endpoint_default)
     = set_port loopback 5760
  /\ snd (resolve_address_tcp two_addresses 5760 endpoint_default)
     <> set_port other_host 5760.
Proof. repeat split; try reflexivity. discriminate. Qed.

(** ** The transmit queue of a client *)

(** C3 at the failing input: after two back-to-back [send_bytes] calls the
    second [do_send(true)] finds [tx_in_progress] still false although the
    write started by the first is outstanding, and starts a second write
    on the same front buffer: two writes are outstanding at once. *)
Theorem second_drain_overlaps_outstanding_write :
  returns (two_sends payload_a payload_b) = true
  /\ MAVConnTCPClient.tx_ops (state_of (two_sends payload_a payload_b))
     = [payload_a; payload_a]
  /\ MAVConnTCPClient.tx_in_progress (state_of (two_sends payload_a payload_b))
     = Some false.
Proof. repeat split; reflexivity. Qed.

(** C1 at the failing input: the two calls carry 01 02 03 and 04 05 06;
    once every write has completed and the queue is empty the socket has
    transmitted 01 02 03 01 02 03 04 05 06, which is not the concatenation
    of the two payloads. *)
Theorem overlapping_sends_duplicate_front_buffer :
  let done :=
    two_sends payload_a payload_b
      >>= MAVConnTCPClient.write_done 3
      >>= MAVConnTCPClient.write_done 3
      >>= MAVConnTCPClient.write_done 3 in
  returns done = true
  /\ MAVConnTCPClient.tx_q (state_of done) = []
  /\ MAVConnTCPClient.tx_ops (state_of done) = []
  /\ MAVConnTCPClient.posted (state_of done) = []
  /\ MAVConnTCPClient.wire (state_of done) = payload_a ++ payload_a ++ payload_b
  /\ MAVConnTCPClient.wire (state_of done) <> payload_a ++ payload_b.
Proof. cbv zeta. repeat split; try reflexivity. discriminate. Qed.

(** C2 at the failing input: payloads of three and of two bytes.  The
    completion of the duplicated three-byte write arrives when the
    two-byte buffer is at the front and is added to its cursor, which
    becomes 3 with a payload of 2; [nbytes()] is then -1, never 0, and the
    buffer stays in the queue. *)
Theorem duplicate_completion_overruns_cursor :
  let after :=
    two_sends payload_a payload_short
      >>= MAVConnTCPClient.write_done 3
      >>= MAVConnTCPClient.write_done 3 in
  returns after = true
  /\ MAVConnTCPClient.tx_q (state_of after) = [{| data := payload_short; pos := 3 |}]
  /\ Forall (fun b => len b < pos b /\ nbytes b = -1)
            (MAVConnTCPClient.tx_q (state_of after)).
Proof.
  cbv zeta. repeat split; try reflexivity.
  repeat constructor.
Qed.

(** *** One send at a time *)

Section SingleSend.

Import MAVConnTCPClient.

Lemma buffer_at (d : list byte) (p : nat) :
  (p <= List.length d)%nat ->
  buffer {| data := d; pos := Z.of_nat p |} = skipn p d.
Proof.
  intro H. unfold buffer, dpos, nbytes, len. cbn [data pos].
  rewrite Nat2Z.id. apply firstn_all2. rewrite length_skipn. lia.
Qed.

Lemma completions_nothing_outstanding ns c :
  tx_ops c = [] -> completions ns c = Ok c.
Proof.
  intro H. induction ns as [|n ns IH]; [reflexivity|].
  cbn [completions]. unfold write_done. rewrite H. exact IH.
Qed.

Lemma firstn_split_skipn {A : Type} (n m : nat) (l : list A) :
  firstn (n + m) l = firstn n l ++ firstn m (skipn n l).
Proof.
  revert l. induction n as [|n IH]; intro l; [reflexivity|].
  destruct l as [|x l]; cbn; [now rewrite firstn_nil|]. now rewrite IH.
Qed.

Lemma drain_front (d : list byte) (ns : list nat) : forall (p : nat) (c : Client),
  tx_q c = [{| data := d; pos := Z.of_nat p |}] ->
  tx_ops c = [skipn p d] ->
  (p < List.length d)%nat ->
  let c' := state_of (completions ns c) in
  returns (completions ns c) = true
  /\ wire c' = wire c ++ firstn (list_sum ns) (skipn p d)
  /\ ((tx_q c' = [] /\ tx_ops c' = [] /\ (List.length d <= p + list_sum ns)%nat)
      \/ (tx_q c' = [{| data := d; pos := Z.of_nat (p + list_sum ns) |}]
          /\ tx_ops c' = [skipn (p + list_sum ns) d]
          /\ (p + list_sum ns < List.length d)%nat)).
Proof.
  induction ns as [|n ns IH]; intros p c Q O L.
  - cbn. rewrite app_nil_r, Nat.add_0_r. repeat split. right. auto.
  - change (list_sum (n :: ns)) with (n + list_sum ns)%nat.
    cbn [completions]. unfold write_done. rewrite O.
    unfold async_send_end. cbn [tx_q with_wire with_tx_ops]. rewrite Q.
    unfold advance, nbytes, len. cbn [data pos].
    rewrite length_firstn, length_skipn.
    destruct (Nat.le_gt_cases (List.length d - p) n) as [G|G].
    + rewrite Nat.min_r by exact G.
      replace (Z.of_nat (List.length d) - (Z.of_nat p + Z.of_nat (List.length d - p)))
        with 0 by lia.
      cbn [Z.eqb tx_q with_tx_q bind].
      rewrite completions_nothing_outstanding by reflexivity.
      cbn. rewrite !firstn_all2 by (rewrite length_skipn; lia).
      repeat split. left. repeat split. lia.
    + rewrite Nat.min_l by lia.
      destruct (Z.eqb_spec (Z.of_nat (List.length d) - (Z.of_nat p + Z.of_nat n)) 0)
        as [E|E]; [lia|].
      cbn [tx_q with_tx_q bind]. unfold do_send. cbn [tx_q with_tx_q bind tx_ops with_tx_ops with_wire app].
      replace (Z.of_nat p + Z.of_nat n) with (Z.of_nat (p + n)) by lia.
      rewrite buffer_at by lia.
      match goal with |- context [completions ns ?x] => set (c1 := x) end.
      destruct (IH (p + n)%nat c1) as (R & W & D); try reflexivity; try lia.
      split; [exact R|]. split.
      * rewrite W. subst c1. cbn [wire with_tx_ops with_tx_q with_wire].
        rewrite <- app_assoc. f_equal.
        change (list_sum (n :: ns)) with (n + list_sum ns)%nat.
        rewrite firstn_split_skipn, skipn_skipn. f_equal. f_equal. f_equal. lia.
      * rewrite !Nat.add_assoc. exact D.
Qed.

Lemma single_send_nonempty (bytes : list byte) (ns : list nat) (c : Client) :
  idle c -> bytes <> [] ->
  let c' := state_of (single_send bytes ns c) in
  returns (single_send bytes ns c) = true
  /\ wire c' = wire c ++ firstn (list_sum ns) bytes
  /\ Forall (fun b => 0 <= pos b <= len b) (tx_q c')
  /\ (tx_q c' = [] <-> (List.length bytes <= list_sum ns)%nat)
  /\ tx_ops c' = map buffer (tx_q c').
Proof.
  intros (S & R & F & Q & O & P) N. cbv zeta.
  assert (L : (0 < List.length bytes)%nat)
    by (destruct bytes; [contradiction | cbn; lia]).
  unfold single_send, send_bytes, is_open. rewrite S. cbn [negb bind].
  unfold run_posted. cbn [io_stopped with_posted with_tx_q posted].
  rewrite R, P, Q. cbn [app]. unfold do_send.
  cbn [tx_in_progress with_posted with_tx_q tx_q tx_ops]. rewrite F, O.
  cbn [app bind]. unfold MsgBuffer_of_bytes.
  change (buffer {| data := bytes; pos := 0 |})
    with (buffer {| data := bytes; pos := Z.of_nat 0 |}).
  rewrite buffer_at by lia.
  match goal with |- context [completions ns ?x] => set (c1 := x) end.
  pose proof (drain_front bytes ns 0 c1 eq_refl eq_refl L) as H.
  cbv zeta in H. destruct H as (Ret & W & D).
  cbn [skipn Nat.add] in W, D.
  split; [exact Ret|]. split; [exact W|].
  destruct D as [(D1 & D2 & D3)|(D1 & D2 & D3)]; rewrite D1, D2.
  - repeat split; auto.
  - split; [|split; [split|]].
    + constructor; [|constructor]. unfold len. cbn [pos data]. lia.
    + discriminate.
    + lia.
    + cbn [map]. now rewrite buffer_at by lia.
Qed.

Lemma single_send_empty (ns : list nat) (c : Client) :
  idle c ->
  let c' := state_of (single_send [] ns c) in
  returns (single_send [] ns c) = true
  /\ wire c' = wire c
  /\ Forall (fun b => 0 <= pos b <= len b) (tx_q c')
  /\ (tx_q c' = [] <-> ns <> [])
  /\ tx_ops c' = map buffer (tx_q c').
Proof.
  intros (S & R & F & Q & O & P). cbv zeta.
  unfold single_send, send_bytes, is_open. rewrite S. cbn [negb bind].
  unfold run_posted. cbn [io_stopped with_posted with_tx_q posted].
  rewrite R, P, Q. cbn [app]. unfold do_send.
  cbn [tx_in_progress with_posted with_tx_q tx_q tx_ops]. rewrite F, O.
  cbn [app bind].
  destruct ns as [|n ns].
  - cbn. repeat split; try discriminate; try contradiction.
    + constructor; [|constructor]. unfold len. cbn. lia.
  - cbn [completions]. unfold write_done. cbn [tx_ops with_tx_ops].
    change (buffer (MsgBuffer_of_bytes [])) with (@nil byte).
    rewrite firstn_nil. unfold async_send_end. cbn.
    rewrite completions_nothing_outstanding by reflexivity.
    cbn. rewrite app_nil_r. repeat split; try discriminate; auto.
Qed.

(** What the transmit queue does get right: one [send_bytes] on an idle
    client-mode channel (open, [tx_in_progress] false, nothing queued,
    posted or being written), however the socket splits the writes and
    whatever the payload, the empty one included.  The call and every
    handler return; the socket has transmitted exactly the bytes of the
    payload written so far, in order; the cursor stays within the
    payload; the buffer has left the queue exactly when a write has
    completed and the counts add up to the payload's length; and while
    it is queued one write, on its unwritten part, is outstanding. *)
Theorem single_send_drains_in_order (bytes : list byte) (ns : list nat) (c : Client) :
  idle c ->
  let c' := state_of (single_send bytes ns c) in
  returns (single_send bytes ns c) = true
  /\ wire c' = wire c ++ firstn (list_sum ns) bytes
  /\ Forall (fun b => 0 <= pos b <= len b) (tx_q c')
  /\ (tx_q c' = [] <-> ns <> [] /\ (List.length bytes <= list_sum ns)%nat)
  /\ tx_ops c' = map buffer (tx_q c').
Proof.
  intro I. cbv zeta. destruct bytes as [|b bytes].
  - pose proof (single_send_empty ns c I) as H. cbv zeta in H.
    destruct H as (H1 & H2 & H3 & H4 & H5).
    split; [exact H1|]. split; [now rewrite firstn_nil, app_nil_r|].
    split; [exact H3|]. split; [|exact H5].
    rewrite H4. cbn [List.length]. split; [intro N; split; [exact N|lia]|tauto].
  - pose proof (single_send_nonempty (b :: bytes) ns c I) as H.
    cbv zeta in H. destruct H as (H1 & H2 & H3 & H4 & H5); [discriminate|].
    split; [exact H1|]. split; [exact H2|]. split; [exact H3|].
    split; [|exact H5]. rewrite H4. split; [|tauto].
    intro L. split; [|exact L]. intros ->. cbn in L. lia.
Qed.
Lemma single_send_drains_in_order_witness :
  let c' := state_of (single_send payload_a [1; 0; 2]%nat receiving_client) in
  returns (single_send payload_a [1; 0; 2]%nat receiving_client) = true
  /\ wire c' = wire receiving_client ++ firstn (list_sum [1; 0; 2]%nat) payload_a
  /\ Forall (fun b => 0 <= pos b <= len b) (tx_q c')
  /\ (tx_q c' = []
      <-> [1; 0; 2]%nat <> [] /\ (List.length payload_a <= list_sum [1; 0; 2]%nat)%nat)
  /\ tx_ops c' = map buffer (tx_q c').
Proof.
  apply (single_send_drains_in_order payload_a [1; 0; 2]%nat receiving_client).
  repeat split; reflexivity.
Defined.

End SingleSend.

(** ** Proof tools *)

(** Case analysis on the innermost scrutinee of the goal. *)
Ltac break_inner :=
  match goal with
  | |- context [match ?x with _ => _ end] =>
      lazymatch x with
      | context [match _ with _ => _ end] => fail
      | _ => destruct x eqn:?
      end
  end.

(** [port_closed_count] over a trace that grows. *)
Lemma port_closed_count_app t u :
  port_closed_count (t ++ u) = (port_closed_count t + port_closed_count u)%nat.
Proof. unfold port_closed_count. now rewrite filter_app, length_app. Qed.

Lemma port_closed_count_none em :
  Forall (fun a => is_port_closed a = false) em -> port_closed_count em = 0%nat.
Proof.
  induction 1 as [|a em Ha _ IH]; [reflexivity|].
  unfold port_closed_count in *. cbn. now rewrite Ha.
Qed.

(** ** Client channel: what every call and event preserves *)

Section ClientInvariants.

Variable MAVLINK_CRC_EXTRA : bool.
Variable mavlink_crcs : Z -> Z.
Variable mavlink_finalize_message_chan :
  mavlink_message_t -> Z -> Z -> Z -> Z -> option Z -> mavlink_message_t.
Variable mavlink_msg_to_send_buffer : mavlink_message_t -> list byte.
Variable mavlink_status_t : Type.
Variable mavlink_parse_char :
  Z -> byte -> mavlink_status_t -> mavlink_status_t * option mavlink_message_t.

Import MAVConnTCPClient.

Local Abbreviation step :=
  (MAVConnTCPClient.step MAVLINK_CRC_EXTRA mavlink_crcs
     mavlink_finalize_message_chan mavlink_msg_to_send_buffer mavlink_parse_char).
Local Abbreviation run :=
  (MAVConnTCPClient.run MAVLINK_CRC_EXTRA mavlink_crcs
     mavlink_finalize_message_chan mavlink_msg_to_send_buffer mavlink_parse_char).

Lemma feed_fold (received : list byte) :
  forall st c, exists st' emitted,
    fold_left (feed mavlink_parse_char) received (st, c)
    = (st', with_trace (trace c ++ emitted) c)
    /\ Forall (fun a => is_port_closed a = false) emitted.
Proof.
  induction received as [|b l IH]; intros st c.
  - exists st, []. split; [|constructor]. cbn. rewrite app_nil_r. now destruct c.
  - cbn [fold_left]. unfold feed at 2.
    destruct (mavlink_parse_char (channel c) b st) as [st1 [m|]].
    + destruct (IH st1 (act (Emit (message_received m (m_sysid m) (m_compid m))) c))
        as (st' & em & E & F).
      exists st', (Emit (message_received m (m_sysid m) (m_compid m)) :: em).
      split; [|constructor; [reflexivity|assumption]].
      rewrite E. f_equal. unfold act, with_trace. cbn. now rewrite <- app_assoc.
    + apply IH.
Qed.

Lemma step_summary e st c :
  let c' := snd (state_of (step e (st, c))) in
  tx_in_progress c' = tx_in_progress c
  /\ channel c' = channel c
  /\ (io_thread c = false -> io_thread c' = false)
  /\ exists emitted,
       trace c' = trace c ++ emitted
       /\ ((socket c' = socket c /\ port_closed_count emitted = 0%nat)
           \/ (socket c = true /\ socket c' = false
               /\ port_closed_count emitted = 1%nat)).
Proof.
  assert (same : forall c0 : Client,
    exists emitted, trace c0 = trace c0 ++ emitted
       /\ ((socket c0 = socket c0 /\ port_closed_count emitted = 0%nat)
           \/ (socket c0 = true /\ socket c0 = false
               /\ port_closed_count emitted = 1%nat))).
  { intro c0. exists []. rewrite app_nil_r. auto. }
  destruct e; unfold MAVConnTCPClient.step, on_client, recv_completes,
    async_receive_end, send_bytes, send_message, close, join, run_posted,
    write_done, write_error, async_send_end, do_send, close, join, is_open.
  7: { destruct (rx_ops c) as [|n] eqn:En.
       - cbn. repeat split; auto.
       - cbn [negb]. cbv iota beta.
         destruct (feed_fold received st (with_rx_ops n c)) as (st' & em & E & F).
         rewrite E. cbn. repeat split; auto. exists em. split; [reflexivity|].
         left. split; [reflexivity|]. now apply port_closed_count_none. }
  all: destruct c; cbn.
  all: repeat (break_inner; cbn); repeat split; try reflexivity;
    try discriminate; try apply same; auto.
  all: try solve [exists []; rewrite app_nil_r; split;
                   [reflexivity | left; split; reflexivity]].
  all: rewrite <- ?app_assoc; eexists; (split; [reflexivity|]); cbn.
  all: match goal with H : negb ?b = false |- _ => destruct b; try discriminate end.
  all: first [ solve [left; split; reflexivity]
             | solve [right; repeat split; reflexivity] ].
Qed.

Lemma run_tx_in_progress es : forall st c,
  tx_in_progress (snd (state_of (run es (st, c)))) = tx_in_progress c.
Proof.
  induction es as [|e es IH]; intros st c; [reflexivity|].
  cbn [MAVConnTCPClient.run].
  pose proof (step_summary e st c) as S. cbv zeta in S.
  destruct S as (T & _).
  destruct (step e (st, c)) as [[st' c']|f [st' c']]; cbn in T |- *.
  - now rewrite IH.
  - exact T.
Qed.

Lemma run_port_closed_count es : forall st c,
  port_closed_count (trace c) = (if socket c then 0%nat else 1%nat) ->
  let c' := snd (state_of (run es (st, c))) in
  port_closed_count (trace c') = (if socket c' then 0%nat else 1%nat).
Proof.
  induction es as [|e es IH]; intros st c J; [exact J|].
  cbn [MAVConnTCPClient.run].
  pose proof (step_summary e st c) as S. cbv zeta in S.
  destruct S as (_ & _ & _ & em & T & D).
  assert (J' : port_closed_count (trace (snd (state_of (step e (st, c)))))
               = if socket (snd (state_of (step e (st, c)))) then 0%nat else 1%nat).
  { rewrite T, port_closed_count_app, J.
    destruct D as [[S0 N]|(S0 & S1 & N)]; rewrite N.
    - rewrite S0. now rewrite Nat.add_0_r.
    - rewrite S0, S1. reflexivity. }
  destruct (step e (st, c)) as [[st' c']|f [st' c']]; cbn in J' |- *.
  - now apply IH.
  - exact J'.
Qed.

(** *** close *)

Lemma close_when_closed self c : socket c = false -> close self c = Ok c.
Proof. intro H. unfold close. now rewrite H. Qed.

Lemma close_closes self c : socket (state_of (close self c)) = false.
Proof.
  unfold close, join. destruct c as [? ? ? ? ? ? ? j s ? ? ? ? ? ?].
  destruct s, j, self; reflexivity.
Qed.

Lemma close_twice self self' c :
  close self' (state_of (close self c)) = Ok (state_of (close self c)).
Proof. apply close_when_closed, close_closes. Qed.

Lemma close_trace self c :
  socket c = true ->
  trace (state_of (close self c))
  = trace c ++ [IoStop; SocketClose; TxClear; Emit port_closed]
            ++ (if io_thread c then
                  match self with External => [Join] | IoThread => [] end
                else []).
Proof.
  unfold close, join. destruct c as [? ? ? ? ? ? ? j s ? ? ? ? ? ?].
  cbn. intros ->. destruct j, self; cbn; rewrite <- ?app_assoc; reflexivity.
Qed.

Lemma close_port_closed_count self c :
  port_closed_count (trace c) = (if socket c then 0%nat else 1%nat) ->
  port_closed_count (trace (state_of (close self c))) = 1%nat.
Proof.
  intro J. destruct (socket c) eqn:S.
  - rewrite close_trace by exact S. rewrite port_closed_count_app, J.
    destruct (io_thread c), self; reflexivity.
  - now rewrite close_when_closed.
Qed.

(** Over a client's life, whatever happens to it: [port_closed] has been
    fired once if the channel is closed and not at all if it is open, and
    once the destructor has run it has been fired exactly once. *)
Lemma client_lifetime es st self c0 :
  socket c0 = true -> port_closed_count (trace c0) = 0%nat ->
  let c := snd (state_of (run es (st, c0))) in
  port_closed_count (trace c) = (if socket c then 0%nat else 1%nat)
  /\ port_closed_count (trace (state_of (destroy self c))) = 1%nat.
Proof.
  intros S0 N0. cbv zeta.
  assert (J : port_closed_count (trace (snd (state_of (run es (st, c0)))))
              = if socket (snd (state_of (run es (st, c0)))) then 0%nat else 1%nat).
  { apply run_port_closed_count. now rewrite S0. }
  split; [exact J|]. now apply close_port_closed_count.
Qed.




(** *** The send entry points *)

Lemma finalize_count_app t u :
  finalize_count (t ++ u) = (finalize_count t + finalize_count u)%nat.
Proof. unfold finalize_count. now rewrite filter_app, length_app. Qed.

(** C7: on an open channel [send_message] enqueues one buffer with its
    cursor at the start.  The codec is asked to finalize (once, for this
    channel's number, the given identity and the message's own length) if
    and only if the message's [sysid] or [compid] differs from the given
    pair, and the buffer then holds the serialization of the finalized
    copy; otherwise the codec is not asked and the buffer holds the
    serialization of the message itself. *)
Theorem send_message_refinalizes_iff_identity_differs message sysid compid c :
  is_open c = true ->
  exists buf c',
    send_message MAVLINK_CRC_EXTRA mavlink_crcs mavlink_finalize_message_chan
      mavlink_msg_to_send_buffer (Some message) sysid compid c = Ok c'
    /\ tx_q c' = tx_q c ++ [buf]
    /\ pos buf = 0
    /\ (m_sysid message <> sysid \/ m_compid message <> compid
        <-> finalize_count (trace c') = S (finalize_count (trace c)))
    /\ (m_sysid message <> sysid \/ m_compid message <> compid ->
        trace c'
        = trace c ++ [Finalize message sysid compid (channel c) (m_len message)]
        /\ data buf
           = mavlink_msg_to_send_buffer
               (mavlink_finalize_message_chan message sysid compid (channel c)
                  (m_len message)
                  (if MAVLINK_CRC_EXTRA
                   then Some (mavlink_crcs (m_msgid message)) else None)))
    /\ (m_sysid message = sysid /\ m_compid message = compid ->
        trace c' = trace c
        /\ data buf = mavlink_msg_to_send_buffer message).
Proof.
  clear mavlink_parse_char.
  intro Hopen. unfold send_message. rewrite Hopen. cbn [negb].
  assert (F : forall t : list action,
             finalize_count t <> S (finalize_count t)) by (intro; lia).
  destruct (Z.eqb_spec (m_sysid message) sysid) as [Es|Es];
    destruct (Z.eqb_spec (m_compid message) compid) as [Ec|Ec]; cbn [negb orb].
  1: exists (MsgBuffer_of_message mavlink_msg_to_send_buffer message),
       (with_posted (posted c ++ [do_send_h true])
          (with_tx_q (tx_q c ++ [MsgBuffer_of_message mavlink_msg_to_send_buffer
                                   message]) c)).
  2-4: exists (MsgBuffer_of_message mavlink_msg_to_send_buffer
                 (mavlink_finalize_message_chan message sysid compid (channel c)
                    (m_len message)
                    (if MAVLINK_CRC_EXTRA
                     then Some (mavlink_crcs (m_msgid message)) else None))),
       (with_posted (posted c ++ [do_send_h true])
          (with_tx_q (tx_q c ++ [MsgBuffer_of_message mavlink_msg_to_send_buffer
                (mavlink_finalize_message_chan message sysid compid (channel c)
                    (m_len message)
                    (if MAVLINK_CRC_EXTRA
                     then Some (mavlink_crcs (m_msgid message)) else None))])
             (act (Finalize message sysid compid (channel c) (m_len message)) c))).
  all: cbn; repeat split; try reflexivity; try tauto; intros.
  all: try (exfalso; eapply F; eassumption).
  all: change (finalize_count
                 (trace c ++ [Finalize message sysid compid (channel c)
                                (m_len message)])
               = S (finalize_count (trace c))).
  all: rewrite finalize_count_app; cbn; lia.
Qed.

End ClientInvariants.

(** ** Server channel: what every call and event preserves *)

Section ServerInvariants.

Variable MAVLINK_CRC_EXTRA : bool.
Variable mavlink_crcs : Z -> Z.
Variable mavlink_finalize_message_chan :
  mavlink_message_t -> Z -> Z -> Z -> Z -> option Z -> mavlink_message_t.
Variable mavlink_msg_to_send_buffer : mavlink_message_t -> list byte.
Variable mavlink_status_t : Type.
Variable mavlink_parse_char :
  Z -> byte -> mavlink_status_t -> mavlink_status_t * option mavlink_message_t.

Import MAVConnTCPServer.

Local Abbreviation step :=
  (MAVConnTCPServer.step MAVLINK_CRC_EXTRA mavlink_crcs
     mavlink_finalize_message_chan mavlink_msg_to_send_buffer mavlink_parse_char).
Local Abbreviation run :=
  (MAVConnTCPServer.run MAVLINK_CRC_EXTRA mavlink_crcs
     mavlink_finalize_message_chan mavlink_msg_to_send_buffer mavlink_parse_char).
Local Abbreviation client_step :=
  (MAVConnTCPClient.step MAVLINK_CRC_EXTRA mavlink_crcs
     mavlink_finalize_message_chan mavlink_msg_to_send_buffer mavlink_parse_char).
Local Abbreviation client_run :=
  (MAVConnTCPClient.run MAVLINK_CRC_EXTRA mavlink_crcs
     mavlink_finalize_message_chan mavlink_msg_to_send_buffer mavlink_parse_char).
Local Abbreviation accepted c :=
  (Client.socket c = true /\ Client.io_thread c = false).

(** *** Calls on the clients of the registry *)

Lemma for_each_keeps (body : Client -> outcome Client) (Q : Client -> Prop) :
  (forall c, Q c -> Q (state_of (body c))) ->
  forall l, Forall (fun en => Q (obj en)) l ->
    Forall (fun en => Q (obj en)) (state_of (for_each body l)).
Proof.
  intros Hb l. induction 1 as [|en l Hen Hl IH]; [constructor|].
  cbn [for_each]. specialize (Hb _ Hen).
  destruct (body (obj en)) as [c|f c]; cbn in Hb.
  - destruct (for_each body l) as [l'|f l']; cbn in IH |- *;
      constructor; assumption.
  - cbn. constructor; assumption.
Qed.

Lemma for_each_length (body : Client -> outcome Client) l :
  List.length (state_of (for_each body l)) = List.length l.
Proof.
  induction l as [|en l IH]; [reflexivity|]. cbn [for_each].
  destruct (body (obj en)) as [c|f c]; [|reflexivity].
  destruct (for_each body l) as [l'|f l']; cbn in IH |- *; now rewrite IH.
Qed.

Lemma for_each_returns (body : Client -> outcome Client) l :
  Forall (fun en => returns (body (obj en)) = true) l ->
  returns (for_each body l) = true.
Proof.
  induction 1 as [|en l Hen Hl IH]; [reflexivity|]. cbn [for_each].
  destruct (body (obj en)) as [c|f c]; [|discriminate].
  destruct (for_each body l) as [l'|f l']; [reflexivity|discriminate].
Qed.

Lemma send_bytes_keeps bytes c :
  accepted c -> accepted (state_of (Client.send_bytes bytes c)).
Proof.
  unfold Client.send_bytes, Client.is_open. intros [S J]. rewrite S. cbn. auto.
Qed.

Lemma send_message_keeps message sysid compid c :
  accepted c ->
  accepted (state_of (Client.send_message MAVLINK_CRC_EXTRA mavlink_crcs
                        mavlink_finalize_message_chan mavlink_msg_to_send_buffer
                        message sysid compid c)).
Proof.
  unfold Client.send_message, Client.is_open. intros [S J]. rewrite S. cbn.
  destruct message as [m|]; [|cbn; auto].
  destruct (negb (m_sysid m =? sysid) || negb (m_compid m =? compid)); cbn; auto.
Qed.

Lemma close_destroy_returns self c :
  Client.io_thread c = false ->
  returns (Client.close self c >>= Client.destroy self) = true.
Proof.
  unfold Client.destroy, Client.close, Client.join.
  destruct c as [? ? ? ? ? ? ? j s ? ? ? ? ? ?]. cbn. intros ->.
  destruct s; reflexivity.
Qed.


(** A completion handler of an accepted client always returns: such a client
    has no thread to join and its [do_send] runs unchecked. *)
Lemma completion_returns k st c :
  Client.io_thread c = false ->
  returns (client_step (client_event k) (st, c)) = true.
Proof.
  intro J. destruct k; cbn [client_event Client.step];
    unfold Client.on_client, Client.recv_completes, Client.async_receive_end,
      Client.write_done, Client.write_error, Client.async_send_end,
      Client.do_send, Client.close, Client.join.
  3: { destruct (Client.rx_ops c); [reflexivity|]. cbn [negb]. cbv iota beta.
       destruct (fold_left _ received _). reflexivity. }
  all: destruct c; cbn in J; subst; cbn.
  all: repeat (break_inner; cbn); try reflexivity; try discriminate.
Qed.

(** *** The registry *)

Lemma remove_length p l : (List.length (remove p l) <= List.length l)%nat.
Proof. apply filter_length_le. Qed.

Lemma remove_twice p l : remove p (remove p l) = remove p l.
Proof.
  unfold remove. induction l as [|en l IH]; [reflexivity|]. cbn.
  destruct (negb (instp en =? p)) eqn:E; cbn; rewrite ?E, IH; reflexivity.
Qed.

Lemma lookup_none_remove p l : lookup p l = None -> remove p l = l.
Proof.
  unfold lookup, remove. induction l as [|en l IH]; [reflexivity|]. cbn.
  destruct (instp en =? p) eqn:E; cbn; [discriminate|].
  intro H. now rewrite IH.
Qed.

Lemma lookup_some p l c :
  lookup p l = Some c -> exists en, In en l /\ obj en = c /\ instp en = p.
Proof.
  unfold lookup. destruct (find _ l) as [en|] eqn:F; [|discriminate].
  intros [= <-]. apply find_some in F. destruct F as [I E].
  exists en. repeat split; [exact I|]. now apply Z.eqb_eq.
Qed.

Lemma store_length p c l : List.length (store p c l) = List.length l.
Proof. apply length_map. Qed.

Lemma store_keeps (Q : Client -> Prop) p c l :
  Q c -> Forall (fun en => Q (obj en)) l ->
  Forall (fun en => Q (obj en)) (store p c l).
Proof.
  intros Hc H. unfold store. apply Forall_map.
  eapply Forall_impl; [|exact H]. intros en Hen.
  destruct (instp en =? p); assumption.
Qed.

Lemma lookup_store p c c' l : lookup p (store p c l) = Some c' -> c' = c.
Proof.
  unfold lookup, store. induction l as [|en l IH]; [discriminate|]. cbn.
  destruct (instp en =? p) eqn:E; cbn.
  - rewrite Z.eqb_refl. now intros [= <-].
  - rewrite E. exact IH.
Qed.

(** After [store p c], whatever [c] is, dropping [p] leaves what dropping
    [p] left before. *)
Lemma remove_store p c l : remove p (store p c l) = remove p l.
Proof.
  unfold remove, store. induction l as [|en l IH]; [reflexivity|]. cbn.
  destruct (instp en =? p) eqn:E; cbn.
  - rewrite Z.eqb_refl. cbn. exact IH.
  - rewrite E. cbn. now rewrite IH.
Qed.

Lemma remove_keeps (Q : entry -> Prop) p l :
  Forall Q l -> Forall Q (remove p l).
Proof.
  intro H. unfold remove. apply Forall_forall. intros en I.
  apply filter_In in I. destruct I as [I _].
  revert en I. now apply Forall_forall.
Qed.


(** *** client_closed and the slots *)

Lemma client_closed_summary p s :
  let s' := state_of (client_closed p s) in
  acceptor s' = acceptor s /\ io_stopped s' = io_stopped s
  /\ accept_ops s' = accept_ops s /\ posted s' = posted s
  /\ trace s' = trace s
  /\ client_list s' = remove p (client_list s).
Proof.
  unfold client_closed. destruct (lookup p (client_list s)) as [c|] eqn:L.
  - destruct (Client.destroy IoThread c); cbn; repeat split; reflexivity.
  - cbn. repeat split; try reflexivity. symmetry. now apply lookup_none_remove.
Qed.

Lemma slots_summary p emitted : forall s,
  let s' := state_of (slots p emitted s) in
  acceptor s' = acceptor s /\ io_stopped s' = io_stopped s
  /\ accept_ops s' = accept_ops s /\ posted s' = posted s
  /\ port_closed_count (trace s') = port_closed_count (trace s)
  /\ client_list s'
     = if (port_closed_count emitted =? 0)%nat then client_list s
       else remove p (client_list s).
Proof.
  induction emitted as [|a em IH]; intro s; [cbn; repeat split; reflexivity|].
  assert (skip : is_port_closed a = false ->
                 slots p (a :: em) s
                 = match a with
                   | Emit (message_received message sysid compid) =>
                       slots p em (recv_message message sysid compid s)
                   | _ => slots p em s
                   end).
  { destruct a as [| | |[]| |]; try discriminate; reflexivity. }
  destruct (is_port_closed a) eqn:A.
  - destruct a as [| | |[|]| |]; try discriminate. cbn [slots].
    pose proof (client_closed_summary p s) as C. cbv zeta in C.
    destruct C as (C1 & C2 & C3 & C4 & C5 & C6).
    clear IH.
    destruct (client_closed p s) as [s1|f s1]; cbn in C1, C2, C3, C4, C5, C6;
      cbn; rewrite C1, C2, C3, C4, C5, C6; repeat split; reflexivity.
  - rewrite (skip eq_refl).
    assert (N : port_closed_count (a :: em) = port_closed_count em).
    { unfold port_closed_count. cbn. now rewrite A. }
    rewrite N.
    destruct a as [| | |[|message sysid compid]| |]; try discriminate;
      try apply IH.
    specialize (IH (recv_message message sysid compid s)). cbv zeta in IH |- *.
    destruct IH as (I1 & I2 & I3 & I4 & I5 & I6).
    rewrite I1, I2, I3, I4, I5, I6. unfold recv_message, act.
    cbn [acceptor io_stopped accept_ops posted trace client_list].
    rewrite port_closed_count_app. repeat split; try reflexivity.
    apply Nat.add_0_r.
Qed.

(** *** close *)

Lemma server_close_when_closed self s : acceptor s = false -> close self s = Ok s.
Proof. intro H. unfold close. now rewrite H. Qed.

Lemma server_close_open self s :
  acceptor s = true ->
  Forall (fun en => Client.io_thread (obj en) = false) (client_list s) ->
  close self s = if io_thread s then join self (teardown s) else Ok (teardown s).
Proof.
  intros A D. unfold close. rewrite A. cbn [negb].
  assert (R : returns (for_each (fun c => Client.close self c >>= Client.destroy self)
                         (client_list s)) = true).
  { apply for_each_returns. eapply Forall_impl; [|exact D].
    intros en J. now apply close_destroy_returns. }
  destruct (for_each _ (client_list s)); [|discriminate].
  destruct s; reflexivity.
Qed.

Lemma server_close_fields self s :
  let s' := state_of (close self s) in
  accept_ops s' = accept_ops s /\ posted s' = posted s
  /\ (List.length (client_list s') <= List.length (client_list s))%nat.
Proof.
  unfold close. destruct (acceptor s); cbn [negb]; [|cbn; auto].
  pose proof (for_each_length (fun c => Client.close self c >>= Client.destroy self)
                (client_list s)) as L.
  destruct (for_each _ (client_list s)) as [l|f l]; cbn in L.
  - unfold join. destruct s as [? ? ? ? ? j ? ? ? ? ? ? ?]. cbn.
    destruct j, self; cbn; repeat split; try reflexivity; apply Nat.le_0_l.
  - cbn. rewrite L. auto.
Qed.


(** *** Every call and event keeps the invariant *)

Lemma on_clients_inv s o :
  server_inv s ->
  (client_list s = [] -> state_of o = []) ->
  Forall (fun en => accepted (obj en)) (state_of o) ->
  server_inv (state_of (on_clients s o)).
Proof.
  intros (K & B & E) N F.
  assert (S : state_of (on_clients s o) = with_client_list (state_of o) s)
    by (destruct o; reflexivity).
  rewrite S. repeat split; cbn; try assumption.
  - apply N. exact (proj1 (B H)).
  - exact (proj2 (B H)).
Qed.

Lemma send_bytes_inv bytes s : server_inv s -> server_inv (state_of (send_bytes bytes s)).
Proof.
  intro I. unfold send_bytes. apply on_clients_inv; [exact I| |].
  - intros ->. reflexivity.
  - apply (for_each_keeps (Client.send_bytes bytes) (fun c => accepted c));
      [apply send_bytes_keeps | apply I].
Qed.

Lemma send_message_inv message sysid compid s :
  server_inv s ->
  server_inv (state_of (send_message MAVLINK_CRC_EXTRA mavlink_crcs
                          mavlink_finalize_message_chan mavlink_msg_to_send_buffer
                          message sysid compid s)).
Proof.
  intro I. unfold send_message. apply on_clients_inv; [exact I| |].
  - intros ->. reflexivity.
  - apply (for_each_keeps _ (fun c => accepted c));
      [apply send_message_keeps | apply I].
Qed.

Lemma inv_no_thread s :
  server_inv s ->
  Forall (fun en => Client.io_thread (obj en) = false) (client_list s).
Proof.
  intros (_ & _ & E). eapply Forall_impl; [|exact E]. now intros en [_ J].
Qed.

Lemma close_inv self s : server_inv s -> server_inv (state_of (close self s)).
Proof.
  intro I. destruct (acceptor s) eqn:A.
  - rewrite server_close_open by (try exact A; now apply inv_no_thread).
    destruct I as (K & _ & _). rewrite A in K.
    unfold join, teardown, server_inv.
    destruct s as [? ? ? ? ? j ? ? ? ? ? ? t]. cbn -[port_closed_count] in K.
    destruct j, self; cbn -[port_closed_count];
      rewrite !port_closed_count_app, K; repeat split; auto.
  - now rewrite server_close_when_closed.
Qed.

Lemma inv_running s : server_inv s -> io_stopped s = false -> acceptor s = true.
Proof.
  intros (_ & B & _) R. destruct (acceptor s); [reflexivity|].
  destruct (B eq_refl) as [_ S]. congruence.
Qed.

Lemma inv_lookup s p c :
  server_inv s -> lookup p (client_list s) = Some c -> accepted c.
Proof.
  intros (_ & _ & E) L. apply lookup_some in L. destruct L as (en & I & <- & _).
  revert en I. now apply Forall_forall.
Qed.

Lemma run_posted_inv s : server_inv s -> server_inv (run_posted s).
Proof.
  intro I. unfold run_posted. destruct (io_stopped s) eqn:R; [exact I|].
  pose proof (inv_running s I R) as A.
  destruct (posted s) as [|h rest]; [exact I|].
  destruct I as (K & B & E).
  destruct h as [|p]; [repeat split; cbn in *; auto; congruence|].
  cbn. destruct (lookup p (client_list s)) as [c|] eqn:L;
    [|repeat split; cbn in *; auto; congruence].
  repeat split; cbn in *; auto; try congruence.
  apply (store_keeps (fun c => accepted c)); [|exact E].
  exact (inv_lookup s p c (conj K (conj B E)) L).
Qed.

Lemma accept_completes_inv error peer avail chan p s :
  server_inv s -> io_stopped s = false ->
  server_inv (state_of (accept_completes error peer avail chan p s)).
Proof.
  intros I R. pose proof (inv_running s I R) as A. unfold accept_completes.
  destruct (accept_ops s) as [|n]; [exact I|].
  assert (I' : server_inv (with_accept_ops n s)) by exact I.
  destruct error.
  - unfold async_accept_end. now apply close_inv.
  - unfold async_accept_end. destruct (avail <=? 0); [exact I|].
    destruct I as (K & B & E). repeat split; cbn in *; auto; try congruence.
    apply Forall_app. split; [exact E|]. repeat constructor.
Qed.

Lemma skipn_past {A : Type} (l m : list A) : skipn (List.length l) (l ++ m) = m.
Proof. induction l as [|x l IH]; [reflexivity|exact IH]. Qed.

Lemma client_completes_inv p k ps s :
  server_inv s -> io_stopped s = false ->
  server_inv (snd (state_of (client_completes MAVLINK_CRC_EXTRA mavlink_crcs
                    mavlink_finalize_message_chan mavlink_msg_to_send_buffer
                    mavlink_parse_char p k (ps, s)))).
Proof.
  intros I R. pose proof (inv_running s I R) as A. unfold client_completes.
  destruct (lookup p (client_list s)) as [c|] eqn:L; [|exact I].
  destruct (inv_lookup s p c I L) as [Sc Jc].
  pose proof (completion_returns k (ps (Client.channel c)) c Jc) as Ret.
  pose proof (step_summary MAVLINK_CRC_EXTRA mavlink_crcs
                mavlink_finalize_message_chan mavlink_msg_to_send_buffer
                mavlink_status_t mavlink_parse_char
                (client_event k) (ps (Client.channel c)) c) as Sum.
  cbv zeta in Sum. destruct Sum as (_ & _ & J' & em & T & D).
  destruct (client_step (client_event k) (ps (Client.channel c), c))
    as [[st c']|f [st c']]; [|discriminate]. cbn in J', T, D.
  rewrite T, skipn_past.
  pose proof (slots_summary p em
                (with_client_list (store p c' (client_list s)) s)) as Sl.
  cbv zeta in Sl. destruct Sl as (S1 & S2 & S3 & S4 & S5 & S6).
  assert (I2 : server_inv
                 (state_of (slots p em
                    (with_client_list (store p c' (client_list s)) s)))).
  { destruct I as (K & B & E). unfold server_inv.
    rewrite S1, S5, S6. cbn -[remove store port_closed_count].
    repeat split; auto; try congruence.
    destruct D as [[D1 D2]|(D1 & D2 & D3)].
    - rewrite D2. cbn [Nat.eqb client_list with_client_list].
      apply (store_keeps (fun c => accepted c)); [|exact E].
      split; [congruence | now apply J'].
    - rewrite D3. cbn [Nat.eqb client_list with_client_list].
      rewrite remove_store. now apply remove_keeps. }
  destruct (slots p em _); exact I2.
Qed.

Lemma step_inv e ps s :
  server_inv s -> server_inv (snd (state_of (step e (ps, s)))).
Proof.
  intro I.
  assert (S : forall o, snd (state_of (on_server ps o)) = state_of o)
    by (intros [|]; reflexivity).
  destruct e; cbn [MAVConnTCPServer.step]; rewrite ?S.
  - now apply send_bytes_inv.
  - now apply send_message_inv.
  - now apply close_inv.
  - now apply run_posted_inv.
  - destruct (io_stopped s) eqn:R; [exact I|]. rewrite S.
    now apply accept_completes_inv.
  - destruct (io_stopped s) eqn:R; [exact I|]. rewrite S.
    now apply accept_completes_inv.
  - destruct (io_stopped s) eqn:R; [exact I|]. now apply client_completes_inv.
Qed.

Lemma run_inv es : forall ps s,
  server_inv s -> server_inv (snd (state_of (run es (ps, s)))).
Proof.
  induction es as [|e es IH]; intros ps s I; [exact I|].
  cbn [MAVConnTCPServer.run]. pose proof (step_inv e ps s I) as I'.
  destruct (step e (ps, s)) as [[ps' s']|f [ps' s']]; cbn in I' |- *.
  - now apply IH.
  - exact I'.
Qed.


(** *** A server that is not accepting never accepts again *)

Lemma step_not_accepting e ps s :
  not_accepting s ->
  let s' := snd (state_of (step e (ps, s))) in
  not_accepting s'
  /\ (List.length (client_list s') <= List.length (client_list s))%nat.
Proof.
  intros [N P]. cbv zeta.
  assert (S : forall o, snd (state_of (on_server ps o)) = state_of o)
    by (intros [|]; reflexivity).
  assert (C : forall o, state_of (on_clients s o) = with_client_list (state_of o) s)
    by (intros [|]; reflexivity).
  assert (same : not_accepting s
                 /\ (List.length (client_list s) <= List.length (client_list s))%nat)
    by (split; [split; assumption | apply Nat.le_refl]).
  destruct e; cbn [MAVConnTCPServer.step]; rewrite ?S.
  - unfold send_bytes. rewrite C. split; [split; assumption|].
    cbn. now rewrite for_each_length.
  - unfold send_message. rewrite C. split; [split; assumption|].
    cbn. now rewrite for_each_length.
  - pose proof (server_close_fields self s) as F. cbv zeta in F.
    destruct F as (F1 & F2 & F3). split; [split|]; congruence.
  - cbn. unfold run_posted. destruct (io_stopped s); [exact same|].
    destruct (posted s) as [|h rest] eqn:Q; [exact same|].
    destruct h as [|p]; [exfalso; apply P; now left|].
    assert (P' : ~ In do_accept_h rest) by (intro H; apply P; now right).
    cbn -[store].
    destruct (lookup p (client_list s)); (split; [split; assumption|]);
      cbn -[store].
    + now rewrite store_length.
    + apply Nat.le_refl.
  - destruct (io_stopped s); [exact same|]. rewrite S.
    unfold accept_completes. rewrite N. exact same.
  - destruct (io_stopped s); [exact same|]. rewrite S.
    unfold accept_completes. rewrite N. exact same.
  - destruct (io_stopped s); [exact same|]. unfold client_completes.
    destruct (lookup p (client_list s)) as [c|]; [|exact same].
    destruct (client_step (client_event k) (ps (Client.channel c), c))
      as [[st c']|f [st c']].
    + pose proof (slots_summary p
                    (skipn (List.length (Client.trace c)) (Client.trace c'))
                    (with_client_list (store p c' (client_list s)) s)) as Sl.
      cbv zeta in Sl. destruct Sl as (_ & _ & S3 & S4 & _ & S6).
      assert (G : not_accepting (state_of (slots p
                    (skipn (List.length (Client.trace c)) (Client.trace c'))
                    (with_client_list (store p c' (client_list s)) s)))
                  /\ (List.length (client_list (state_of (slots p
                    (skipn (List.length (Client.trace c)) (Client.trace c'))
                    (with_client_list (store p c' (client_list s)) s))))
                      <= List.length (client_list s))%nat).
      { unfold not_accepting. rewrite S3, S4, S6. cbn -[remove store].
        split; [split; assumption|].
        destruct (port_closed_count _ =? 0)%nat.
        - now rewrite store_length.
        - rewrite <- (store_length p c' (client_list s)). apply remove_length. }
      destruct (slots p _ _); exact G.
    + cbn -[store]. split; [split; assumption|]. now rewrite store_length.
Qed.

Lemma run_not_accepting es : forall ps s,
  not_accepting s ->
  let s' := snd (state_of (run es (ps, s))) in
  not_accepting s'
  /\ (List.length (client_list s') <= List.length (client_list s))%nat.
Proof.
  induction es as [|e es IH]; intros ps s N.
  - split; [exact N | apply Nat.le_refl].
  - cbn [MAVConnTCPServer.run]. pose proof (step_not_accepting e ps s N) as H.
    cbv zeta in H. destruct H as [N' L'].
    destruct (step e (ps, s)) as [[ps' s']|f [ps' s']]; cbn in N', L' |- *.
    + destruct (IH ps' s' N') as [N2 L2]. split; [exact N2|].
      eapply Nat.le_trans; eassumption.
    + split; assumption.
Qed.

(** *** The constructor establishes the invariant *)

Lemma new_server_inv system_id component_id chan r server_port listen_ok s0 :
  new_server system_id component_id chan r server_port listen_ok = Constructed s0 ->
  server_inv s0.
Proof.
  unfold new_server.
  destruct (resolve_address_tcp r server_port endpoint_default) as [[] ep];
    cbn; [|discriminate].
  destruct listen_ok; cbn; [|discriminate].
  intros [= <-]. repeat split; cbn; try discriminate. constructor.
Qed.

Lemma new_client_open system_id component_id chan r server_port connect_ok c0 :
  Client.new_client system_id component_id chan r server_port connect_ok
  = Constructed c0 ->
  Client.socket c0 = true /\ port_closed_count (Client.trace c0) = 0%nat.
Proof.
  unfold Client.new_client.
  destruct (resolve_address_tcp r server_port endpoint_default) as [[] ep];
    cbn; [|discriminate].
  destruct connect_ok; cbn; [|discriminate].
  intros [= <-]. split; reflexivity.
Qed.

Lemma server_close_closes self s :
  server_inv s -> acceptor (state_of (close self s)) = false.
Proof.
  intro I. destruct (acceptor s) eqn:A.
  - rewrite server_close_open by (try exact A; now apply inv_no_thread).
    unfold join. destruct s as [? ? ? ? ? j ? ? ? ? ? ? ?].
    destruct j, self; reflexivity.
  - now rewrite server_close_when_closed.
Qed.

Lemma server_close_trace self s :
  server_inv s -> acceptor s = true ->
  trace (state_of (close self s))
  = trace s ++ [IoStop; SocketClose; Emit port_closed]
            ++ (if io_thread s then
                  match self with External => [Join] | IoThread => [] end
                else []).
Proof.
  intros I A. rewrite server_close_open by (try exact A; now apply inv_no_thread).
  unfold join. destruct s as [? ? ? ? ? j ? ? ? ? ? ? ?].
  destruct j, self; cbn; rewrite <- ?app_assoc; reflexivity.
Qed.

Lemma server_close_count self s :
  server_inv s -> port_closed_count (trace (state_of (close self s))) = 1%nat.
Proof.
  intro I. pose proof I as (K & _ & _). destruct (acceptor s) eqn:A.
  - rewrite server_close_trace by assumption.
    rewrite port_closed_count_app, K. destruct (io_thread s), self; reflexivity.
  - now rewrite server_close_when_closed.
Qed.

(** *** close, on both kinds of channel *)

(** C4: [close] on a channel that is not open returns at once and changes
    nothing, so a second [close] is a no-op; over the life of a channel,
    whatever is called and whatever the I/O thread does, [port_closed]
    has been fired once if the channel is closed and never if it is open,
    and exactly once when the destructor has run.  It is fired by the one
    [close] that finds the channel open, at the end of what [close] does
    to the channel: after the io_service is stopped, the socket closed
    and (client) the queue cleared.  Only the join of the channel's I/O
    thread, when there is one to join, comes after it, as in the close
    sequence the specification gives. *)
Theorem close_idempotent_port_closed_once :
  (forall self c, Client.socket c = false -> Client.close self c = Ok c)
  /\ (forall self self' c,
        Client.close self' (state_of (Client.close self c))
        = Ok (state_of (Client.close self c)))
  /\ (forall self c, Client.socket c = true ->
        Client.trace (state_of (Client.close self c))
        = Client.trace c ++ [IoStop; SocketClose; TxClear; Emit port_closed]
            ++ (if Client.io_thread c then
                  match self with External => [Join] | IoThread => [] end
                else []))
  /\ (forall system_id component_id chan r server_port connect_ok c0 es st self,
        Client.new_client system_id component_id chan r server_port connect_ok
        = Constructed c0 ->
        let c := snd (state_of (client_run es (st, c0))) in
        port_closed_count (Client.trace c)
        = (if Client.socket c then 0%nat else 1%nat)
        /\ port_closed_count (Client.trace (state_of (Client.destroy self c)))
           = 1%nat)
  /\ (forall system_id component_id chan client_ep es st self,
        let c := snd (state_of (client_run es
                   (st, Client.new_accepted system_id component_id chan
                          true client_ep))) in
        port_closed_count (Client.trace c)
        = (if Client.socket c then 0%nat else 1%nat)
        /\ port_closed_count (Client.trace (state_of (Client.destroy self c)))
           = 1%nat)
  /\ (forall self s, acceptor s = false -> close self s = Ok s)
  /\ (forall system_id component_id chan r server_port listen_ok s0 es ps
             self self',
        new_server system_id component_id chan r server_port listen_ok
        = Constructed s0 ->
        let s := snd (state_of (run es (ps, s0))) in
        close self' (state_of (close self s)) = Ok (state_of (close self s))
        /\ (acceptor s = true ->
            trace (state_of (close self s))
            = trace s ++ [IoStop; SocketClose; Emit port_closed]
                ++ (if io_thread s then
                      match self with External => [Join] | IoThread => [] end
                    else []))
        /\ port_closed_count (trace s) = (if acceptor s then 0%nat else 1%nat)
        /\ port_closed_count (trace (state_of (destroy self s))) = 1%nat).
Proof.
  split; [exact close_when_closed|].
  split; [exact close_twice|].
  split; [exact close_trace|].
  split.
  { intros system_id component_id chan r server_port connect_ok c0 es st self H.
    apply new_client_open in H. destruct H as [S N].
    now apply client_lifetime. }
  split.
  { intros. now apply client_lifetime. }
  split; [exact server_close_when_closed|].
  intros system_id component_id chan r server_port listen_ok s0 es ps
    self self' H.
  apply new_server_inv in H. pose proof (run_inv es ps s0 H) as I.
  cbv zeta. repeat split.
  - apply server_close_when_closed. now apply server_close_closes.
  - intro A. now apply server_close_trace.
  - apply I.
  - now apply server_close_count.
Qed.

(** *** The send entry points, on both kinds of channel *)

Lemma for_each_ok (body : Client -> outcome Client) (g : Client -> Client) l :
  Forall (fun en => body (obj en) = Ok (g (obj en))) l ->
  for_each body l
  = Ok (map (fun en => {| instp := instp en; obj := g (obj en) |}) l).
Proof.
  induction 1 as [|en l Hen Hl IH]; [reflexivity|].
  cbn [for_each map]. now rewrite Hen, IH.
Qed.

Lemma send_bytes_open bytes c :
  Client.is_open c = true ->
  Client.send_bytes bytes c
  = Ok (Client.with_posted (Client.posted c ++ [do_send_h true])
          (Client.with_tx_q (Client.tx_q c ++ [MsgBuffer_of_bytes bytes]) c)).
Proof. intro H. unfold Client.send_bytes. now rewrite H. Qed.

Lemma send_message_open message sysid compid c :
  Client.is_open c = true ->
  exists buf c',
    Client.send_message MAVLINK_CRC_EXTRA mavlink_crcs
      mavlink_finalize_message_chan mavlink_msg_to_send_buffer
      (Some message) sysid compid c = Ok c'
    /\ Client.tx_q c' = Client.tx_q c ++ [buf]
    /\ Client.posted c' = Client.posted c ++ [do_send_h true].
Proof.
  intro H. unfold Client.send_message. rewrite H. cbn [negb].
  destruct (negb (m_sysid message =? sysid) || negb (m_compid message =? compid));
    eexists; eexists; (split; [reflexivity|]); split; reflexivity.
Qed.

Lemma send_message_open_eq message sysid compid c :
  Client.is_open c = true ->
  let differs :=
    negb (m_sysid message =? sysid) || negb (m_compid message =? compid) in
  let c1 :=
    if differs
    then Client.act (Finalize message sysid compid (Client.channel c)
                       (m_len message)) c
    else c in
  let msg :=
    if differs
    then mavlink_finalize_message_chan message sysid compid (Client.channel c)
           (m_len message)
           (if MAVLINK_CRC_EXTRA then Some (mavlink_crcs (m_msgid message))
            else None)
    else message in
  Client.send_message MAVLINK_CRC_EXTRA mavlink_crcs
    mavlink_finalize_message_chan mavlink_msg_to_send_buffer
    (Some message) sysid compid c
  = Ok (Client.with_posted (Client.posted c1 ++ [do_send_h true])
          (Client.with_tx_q
             (Client.tx_q c1
              ++ [Client.MsgBuffer_of_message mavlink_msg_to_send_buffer msg])
             c1)).
Proof.
  intro H. cbv zeta. unfold Client.send_message. rewrite H. cbn [negb].
  now destruct (negb (m_sysid message =? sysid)
                || negb (m_compid message =? compid)).
Qed.

(** C8, as the code has it: on a closed client channel [send_bytes] and
    [send_message] fail the assertion, which is not one of the errors a
    caller can handle, and leave the channel as it was; on an open client
    channel they return, having put one buffer at the back of the queue
    and posted a drain.  A server channel makes no check of its own: it
    forwards to every registered client, at any time of its life every
    registered client is open, so the call returns with the registry in
    the same order and on every client one more buffer at the back of
    the queue and one more drain posted: the given bytes for
    [send_bytes]; for [send_message] the serialization of the message,
    finalized for that client's channel when its identity differs from
    the given one.  On a closed server the registry is empty and the call
    returns without any effect. *)
Theorem send_asserts_open_on_client_only :
  (forall bytes message sysid compid c,
     Client.is_open c = false ->
     Client.send_bytes bytes c = Fail AssertionFailed c
     /\ Client.send_message MAVLINK_CRC_EXTRA mavlink_crcs
          mavlink_finalize_message_chan mavlink_msg_to_send_buffer
          message sysid compid c = Fail AssertionFailed c)
  /\ (forall bytes message sysid compid c,
        Client.is_open c = true ->
        Client.send_bytes bytes c
        = Ok (Client.with_posted (Client.posted c ++ [do_send_h true])
                (Client.with_tx_q (Client.tx_q c ++ [MsgBuffer_of_bytes bytes]) c))
        /\ exists buf c',
             Client.send_message MAVLINK_CRC_EXTRA mavlink_crcs
               mavlink_finalize_message_chan mavlink_msg_to_send_buffer
               (Some message) sysid compid c = Ok c'
             /\ Client.tx_q c' = Client.tx_q c ++ [buf]
             /\ Client.posted c' = Client.posted c ++ [do_send_h true])
  /\ (forall system_id component_id chan r server_port listen_ok s0 es ps
             bytes message sysid compid,
        new_server system_id component_id chan r server_port listen_ok
        = Constructed s0 ->
        let s := snd (state_of (run es (ps, s0))) in
        send_bytes bytes s
        = Ok (with_client_list
                (map (fun en =>
                        {| instp := instp en;
                           obj := Client.with_posted
                                    (Client.posted (obj en) ++ [do_send_h true])
                                    (Client.with_tx_q
                                       (Client.tx_q (obj en)
                                        ++ [MsgBuffer_of_bytes bytes])
                                       (obj en)) |})
                     (client_list s)) s)
        /\ returns (send_message MAVLINK_CRC_EXTRA mavlink_crcs
                      mavlink_finalize_message_chan mavlink_msg_to_send_buffer
                      (Some message) sysid compid s) = true
        /\ (let differs :=
              negb (m_sysid message =? sysid)
              || negb (m_compid message =? compid) in
            let finalized c :=
              if differs
              then Client.act (Finalize message sysid compid
                                 (Client.channel c) (m_len message)) c
              else c in
            let msg c :=
              if differs
              then mavlink_finalize_message_chan message sysid compid
                     (Client.channel c) (m_len message)
                     (if MAVLINK_CRC_EXTRA
                      then Some (mavlink_crcs (m_msgid message)) else None)
              else message in
            send_message MAVLINK_CRC_EXTRA mavlink_crcs
              mavlink_finalize_message_chan mavlink_msg_to_send_buffer
              (Some message) sysid compid s
            = Ok (with_client_list
                    (map (fun en =>
                            {| instp := instp en;
                               obj := Client.with_posted
                                        (Client.posted (finalized (obj en))
                                         ++ [do_send_h true])
                                        (Client.with_tx_q
                                           (Client.tx_q (finalized (obj en))
                                            ++ [Client.MsgBuffer_of_message
                                                  mavlink_msg_to_send_buffer
                                                  (msg (obj en))])
                                           (finalized (obj en))) |})
                         (client_list s)) s))
        /\ (is_open s = false ->
            send_bytes bytes s = Ok s
            /\ send_message MAVLINK_CRC_EXTRA mavlink_crcs
                 mavlink_finalize_message_chan mavlink_msg_to_send_buffer
                 (Some message) sysid compid s = Ok s)).
Proof.
  split.
  { intros bytes message sysid compid c H.
    unfold Client.send_bytes, Client.send_message. now rewrite H. }
  split.
  { intros bytes message sysid compid c H. split.
    - now apply send_bytes_open.
    - now apply send_message_open. }
  intros system_id component_id chan r server_port listen_ok s0 es ps
    bytes message sysid compid H.
  apply new_server_inv in H. pose proof (run_inv es ps s0 H) as I.
  cbv zeta. set (s := snd (state_of (run es (ps, s0)))) in *.
  destruct I as (K & B & E). split; [|split; [|split]].
  - unfold send_bytes. rewrite for_each_ok with
      (g := fun c => Client.with_posted (Client.posted c ++ [do_send_h true])
                       (Client.with_tx_q
                          (Client.tx_q c ++ [MsgBuffer_of_bytes bytes]) c)).
    + reflexivity.
    + eapply Forall_impl; [|exact E]. intros en [O _].
      now apply send_bytes_open.
  - unfold send_message.
    assert (R : returns (for_each
                  (Client.send_message MAVLINK_CRC_EXTRA mavlink_crcs
                     mavlink_finalize_message_chan mavlink_msg_to_send_buffer
                     (Some message) sysid compid) (client_list s)) = true).
    { apply for_each_returns. eapply Forall_impl; [|exact E]. intros en [O _].
      destruct (send_message_open message sysid compid (obj en) O)
        as (buf & c' & Q & _). now rewrite Q. }
    destruct (for_each _ (client_list s)); [reflexivity|discriminate].
  - cbv zeta. unfold send_message.
    rewrite for_each_ok with
      (g := fun c =>
         Client.with_posted
           (Client.posted
              (if negb (m_sysid message =? sysid)
                  || negb (m_compid message =? compid)
               then Client.act (Finalize message sysid compid
                                  (Client.channel c) (m_len message)) c
               else c)
            ++ [do_send_h true])
           (Client.with_tx_q
              (Client.tx_q
                 (if negb (m_sysid message =? sysid)
                     || negb (m_compid message =? compid)
                  then Client.act (Finalize message sysid compid
                                     (Client.channel c) (m_len message)) c
                  else c)
               ++ [Client.MsgBuffer_of_message mavlink_msg_to_send_buffer
                     (if negb (m_sysid message =? sysid)
                         || negb (m_compid message =? compid)
                      then mavlink_finalize_message_chan message sysid compid
                             (Client.channel c) (m_len message)
                             (if MAVLINK_CRC_EXTRA
                              then Some (mavlink_crcs (m_msgid message))
                              else None)
                      else message)])
              (if negb (m_sysid message =? sysid)
                  || negb (m_compid message =? compid)
               then Client.act (Finalize message sysid compid
                                  (Client.channel c) (m_len message)) c
               else c))).
    + reflexivity.
    + eapply Forall_impl; [|exact E]. intros en [O _].
      now apply send_message_open_eq.
  - intro C. destruct (B C) as [L _]. unfold send_bytes, send_message.
    rewrite L. cbn. destruct s; cbn in L; subst; split; reflexivity.
Qed.

(** *** The accept handler at capacity *)

(** C5 at the failing input: a server with one client and an accept
    outstanding gets a connection while [channes_available()] is 0.  The
    handler closes [client_sock] and leaves the registry, the client, the
    acceptor and the trace alone, as the claim says; but it returns
    without calling [do_accept], so no accept is outstanding or posted any
    more, and whatever happens afterwards the registry never gains a
    client. *)
Theorem rejection_at_capacity_ends_accept_loop :
  forall ps,
    let before := state_of (run first_connection (ps, listening_server)) in
    let after := state_of (step connection_at_capacity before) in
    returns (step connection_at_capacity before) = true
    /\ accept_ops (snd before) = 1%nat
    /\ client_sock (snd after) = false
    /\ client_list (snd after) = client_list (snd before)
    /\ acceptor (snd after) = true
    /\ trace (snd after) = trace (snd before)
    /\ accept_ops (snd after) = 0%nat
    /\ ~ In do_accept_h (posted (snd after))
    /\ forall es,
         (List.length (client_list (snd (state_of (run es after)))) <= 1)%nat.
Proof.
  intro ps. cbv zeta.
  set (after := state_of (step connection_at_capacity
                  (state_of (run first_connection (ps, listening_server))))).
  assert (N : not_accepting (snd after)).
  { split; [reflexivity|]. intros [H|[]]. discriminate. }
  assert (L1 : List.length (client_list (snd after)) = 1%nat) by reflexivity.
  do 7 (split; [reflexivity|]). split; [apply N|].
  intro es. rewrite <- L1. clearbody after. destruct after as [ps2 s2].
  now apply run_not_accepting.
Qed.

(** *** close on the I/O thread *)

(** One thread stepping through [close] alone does what the call does. *)
Lemma alone_is_close (t : thread) (c : Client) :
  let steps :=
    if Client.socket c && Client.io_thread c && TwoThreads.same_thread t External
    then 4%nat else 3%nat in
  exists w,
    TwoThreads.schedule (repeat t steps) (TwoThreads.alone t c) = Some w
    /\ TwoThreads.chan w = state_of (Client.close t c)
    /\ TwoThreads.mutex w = None
    /\ TwoThreads.pc_of t w
       = if returns (Client.close t c) then TwoThreads.Returned
         else TwoThreads.Thrown.
Proof.
  destruct c as [? ? ? ? ? ? ? j s ? ? ? ? ? ?].
  destruct t, s, j; cbn; eexists; (split; [reflexivity|]);
    repeat split; reflexivity.
Qed.

(** C9 at the failing input: a client-mode channel whose peer disconnects.
    The failed receive completes on the channel's I/O thread, whose
    handler calls [close]; [close] fires [port_closed] and then joins
    [io_thread], which is the calling thread itself: the join throws and
    the thread is never joined.  The same happens on a failed write, and
    to a server whose accept fails.  With an external thread calling
    [close] at the same time, either the I/O thread gets the mutex first
    and throws in the same way, or the external thread gets it first and
    waits in the join, holding the mutex the I/O thread waits for:
    neither can go on. *)
Theorem close_on_io_thread_joins_itself :
  (forall st,
     failure_of (client_run peer_disconnects (st, connected_client))
     = Some SystemError
     /\ Client.trace (snd (state_of (client_run peer_disconnects
                                       (st, connected_client))))
        = [IoStop; SocketClose; TxClear; Emit port_closed]
     /\ Client.io_thread (snd (state_of (client_run peer_disconnects
                                           (st, connected_client)))) = true)
  /\ (forall st,
        failure_of (client_run write_fails (st, connected_client))
        = Some SystemError)
  /\ (forall ps,
        failure_of (run accept_fails (ps, listening_server)) = Some SystemError
        /\ trace (snd (state_of (run accept_fails (ps, listening_server))))
           = [IoStop; SocketClose; Emit port_closed]
        /\ io_thread (snd (state_of (run accept_fails (ps, listening_server))))
           = true)
  /\ option_map TwoThreads.pc_io
       (TwoThreads.schedule [IoThread; IoThread; IoThread]
          (TwoThreads.both receiving_client))
     = Some TwoThreads.Thrown
  /\ match TwoThreads.schedule [External; External]
            (TwoThreads.both receiving_client) with
     | Some w =>
         TwoThreads.pc_external w = TwoThreads.AtJoin
         /\ TwoThreads.pc_io w = TwoThreads.AtLock
         /\ TwoThreads.deadlocked w
     | None => False
     end.
Proof.
  split; [|split; [|split; [|split]]]; intros; repeat split;
    vm_compute; reflexivity.
Qed.

(** *** The registry over the life of a server *)

(** From its construction on, whatever is called and whatever its I/O
    thread does, a server satisfies [server_inv]: [port_closed] fired once
    if it is closed and never if it is open, no client left once it is
    closed, and every registered client open and without a thread of its
    own. *)
Theorem server_invariant_over_lifetime
    system_id component_id chan r server_port listen_ok s0 es ps :
  new_server system_id component_id chan r server_port listen_ok = Constructed s0 ->
  server_inv (snd (state_of (run es (ps, s0)))).
Proof. intro H. apply run_inv. now apply new_server_inv in H. Qed.

(** When the receive of a registered client fails (its peer is gone), the
    handler does not return normally.  The client's [close] shuts the
    socket and fires [port_closed]; the slot [client_closed] removes the
    client from the registry and deletes it there and then; [close], not
    yet finished, uses the deleted object.  Up to that point the server
    has dropped exactly this client: the other clients, the acceptor, the
    outstanding accept, what is posted and the server's own trace are as
    before. *)
Theorem severed_client_is_deleted_inside_its_close
    system_id component_id chan r server_port listen_ok s0 es ps p c :
  new_server system_id component_id chan r server_port listen_ok = Constructed s0 ->
  let before := state_of (run es (ps, s0)) in
  io_stopped (snd before) = false ->
  lookup p (client_list (snd before)) = Some c ->
  Client.rx_ops c <> 0%nat ->
  let after := state_of (step (Io_client p Recv_error) before) in
  failure_of (step (Io_client p Recv_error) before) = Some UseAfterFree
  /\ (forall ch, fst after ch = fst before ch)
  /\ client_list (snd after) = remove p (client_list (snd before))
  /\ acceptor (snd after) = true
  /\ accept_ops (snd after) = accept_ops (snd before)
  /\ posted (snd after) = posted (snd before)
  /\ trace (snd after) = trace (snd before).
Proof.
  intros H. cbv zeta. apply new_server_inv in H.
  pose proof (run_inv es ps s0 H) as I.
  destruct (state_of (run es (ps, s0))) as [ps1 s]. cbn [snd] in *.
  intros R L N. pose proof (inv_running s I R) as A.
  destruct (inv_lookup s p c I L) as [Sc Jc].
  cbn [MAVConnTCPServer.step]. rewrite R. unfold client_completes. rewrite L.
  cbn [client_event Client.step]. unfold Client.recv_completes.
  destruct (Client.rx_ops c) as [|n] eqn:Rx; [contradiction|].
  unfold Client.async_receive_end, Client.close. cbn [Client.socket Client.with_rx_ops].
  rewrite Sc. cbn [negb].
  assert (J : Client.io_thread (Client.teardown (Client.with_rx_ops n c)) = false)
    by exact Jc.
  rewrite J.
  assert (T : skipn (List.length (Client.trace c))
                (Client.trace (Client.teardown (Client.with_rx_ops n c)))
              = [IoStop; SocketClose; TxClear; Emit port_closed]).
  { unfold Client.teardown, Client.act. cbn [Client.trace Client.with_trace].
    rewrite <- !app_assoc. apply skipn_past. }
  rewrite T. cbn [slots]. unfold client_closed.
  cbn [client_list with_client_list].
  destruct (lookup p (store p (Client.teardown (Client.with_rx_ops n c))
                        (client_list s))) as [c'|] eqn:L'.
  - apply lookup_store in L'. subst c'.
    assert (C' : Client.destroy IoThread
                   (Client.teardown (Client.with_rx_ops n c))
                 = Ok (Client.teardown (Client.with_rx_ops n c)))
      by (apply close_when_closed; reflexivity).
    rewrite C'. cbn. rewrite remove_store. repeat split; auto.
    intro ch. unfold set_parser.
    destruct (Z.eqb_spec ch (Client.channel c)); [now subst|reflexivity].
  - cbn. apply lookup_none_remove in L'. rewrite <- L' at 1.
    rewrite remove_store. repeat split; auto.
    intro ch. unfold set_parser.
    destruct (Z.eqb_spec ch (Client.channel c)); [now subst|reflexivity].
Qed.

End ServerInvariants.

(** ** The theorems at concrete inputs *)

Lemma close_idempotent_port_closed_once_witness :
  MAVConnTCPClient.close IoThread closed_client = Ok closed_client
  /\ MAVConnTCPClient.trace
       (state_of (MAVConnTCPClient.close External connected_client))
     = MAVConnTCPClient.trace connected_client
         ++ [IoStop; SocketClose; TxClear; Emit port_closed] ++ [Join]
  /\ port_closed_count
       (MAVConnTCPClient.trace
          (state_of (MAVConnTCPClient.destroy External
             (snd (state_of (toy_client_run peer_disconnects connected_client))))))
     = 1%nat
  /\ MAVConnTCPServer.close External closed_server = Ok closed_server
  /\ port_closed_count
       (MAVConnTCPServer.trace
          (state_of (MAVConnTCPServer.destroy External
             (snd (state_of (toy_server_run first_connection listening_server))))))
     = 1%nat.
Proof.
  pose proof (close_idempotent_port_closed_once true (fun _ => 0) toy_finalize
                toy_to_send_buffer (list byte) toy_parse_char)
    as (H1 & _ & H3 & H4 & _ & H6 & H7).
  split; [apply H1; reflexivity|].
  split; [apply (H3 External connected_client); reflexivity|].
  split.
  { apply (H4 1 240 0 one_address 5760 true connected_client peer_disconnects
              [] External).
    reflexivity. }
  split; [apply H6; reflexivity|].
  apply (H7 1 240 0 one_address 5760 true listening_server first_connection
            (fun _ => []) External External).
  reflexivity.
Defined.

Lemma send_message_refinalizes_iff_identity_differs_witness :
  exists buf c',
    MAVConnTCPClient.send_message true (fun _ => 0) toy_finalize
      toy_to_send_buffer (Some heartbeat) 255 190 connected_client = Ok c'
    /\ MAVConnTCPClient.tx_q c' = MAVConnTCPClient.tx_q connected_client ++ [buf]
    /\ pos buf = 0
    /\ (m_sysid heartbeat <> 255 \/ m_compid heartbeat <> 190
        <-> finalize_count (MAVConnTCPClient.trace c')
            = S (finalize_count (MAVConnTCPClient.trace connected_client)))
    /\ (m_sysid heartbeat <> 255 \/ m_compid heartbeat <> 190 ->
        MAVConnTCPClient.trace c'
        = MAVConnTCPClient.trace connected_client
            ++ [Finalize heartbeat 255 190
                  (MAVConnTCPClient.channel connected_client) (m_len heartbeat)]
        /\ data buf
           = toy_to_send_buffer
               (toy_finalize heartbeat 255 190
                  (MAVConnTCPClient.channel connected_client) (m_len heartbeat)
                  (Some 0)))
    /\ (m_sysid heartbeat = 255 /\ m_compid heartbeat = 190 ->
        MAVConnTCPClient.trace c' = MAVConnTCPClient.trace connected_client
        /\ data buf = toy_to_send_buffer heartbeat).
Proof.
  apply (send_message_refinalizes_iff_identity_differs true (fun _ => 0)
           toy_finalize toy_to_send_buffer heartbeat 255 190 connected_client).
  reflexivity.
Defined.


(** C8, as the spec words it, fails for the server: on the closed server
    both calls return normally, with no assertion failure and no effect. *)
Lemma closed_server_send_returns :
  MAVConnTCPServer.is_open closed_server = false
  /\ MAVConnTCPServer.send_bytes payload_a closed_server = Ok closed_server
  /\ MAVConnTCPServer.send_message true (fun _ => 0) toy_finalize
       toy_to_send_buffer (Some heartbeat) 1 240 closed_server
     = Ok closed_server
  /\ failure_of (MAVConnTCPServer.send_bytes payload_a closed_server)
     <> Some AssertionFailed.
Proof. repeat split; try reflexivity; discriminate. Qed.

Lemma send_asserts_open_on_client_only_witness :
  MAVConnTCPClient.send_bytes payload_a closed_client
  = Fail AssertionFailed closed_client
  /\ MAVConnTCPClient.send_bytes payload_a connected_client
     = Ok (MAVConnTCPClient.with_posted
             (MAVConnTCPClient.posted connected_client ++ [do_send_h true])
             (MAVConnTCPClient.with_tx_q
                (MAVConnTCPClient.tx_q connected_client
                 ++ [MsgBuffer_of_bytes payload_a]) connected_client))
  /\ returns (MAVConnTCPServer.send_message true (fun _ => 0) toy_finalize
                toy_to_send_buffer (Some heartbeat) 1 240
                (snd (state_of (toy_server_run first_connection listening_server))))
     = true
  /\ (let s := snd (state_of (toy_server_run first_connection listening_server)) in
      let finalized c :=
        MAVConnTCPClient.act
          (Finalize heartbeat 255 190 (MAVConnTCPClient.channel c)
             (m_len heartbeat)) c in
      let msg c :=
        toy_finalize heartbeat 255 190 (MAVConnTCPClient.channel c)
          (m_len heartbeat) (Some 0) in
      MAVConnTCPServer.client_list s <> []
      /\ MAVConnTCPServer.send_message true (fun _ => 0) toy_finalize
           toy_to_send_buffer (Some heartbeat) 255 190 s
         = Ok (MAVConnTCPServer.with_client_list
                 (map (fun en =>
                         {| MAVConnTCPServer.instp := MAVConnTCPServer.instp en;
                            MAVConnTCPServer.obj :=
                              MAVConnTCPClient.with_posted
                                (MAVConnTCPClient.posted
                                   (finalized (MAVConnTCPServer.obj en))
                                 ++ [do_send_h true])
                                (MAVConnTCPClient.with_tx_q
                                   (MAVConnTCPClient.tx_q
                                      (finalized (MAVConnTCPServer.obj en))
                                    ++ [MAVConnTCPClient.MsgBuffer_of_message
                                          toy_to_send_buffer
                                          (msg (MAVConnTCPServer.obj en))])
                                   (finalized (MAVConnTCPServer.obj en))) |})
                      (MAVConnTCPServer.client_list s)) s)).
Proof.
  pose proof (send_asserts_open_on_client_only true (fun _ => 0) toy_finalize
                toy_to_send_buffer (list byte) toy_parse_char)
    as (H1 & H2 & H3).
  split; [apply (H1 payload_a (Some heartbeat) 1 240 closed_client); reflexivity|].
  split; [apply (H2 payload_a heartbeat 1 240 connected_client); reflexivity|].
  split.
  { apply (H3 1 240 0 one_address 5760 true listening_server first_connection
              (fun _ => []) payload_a heartbeat 1 240).
    reflexivity. }
  split; [discriminate|].
  destruct (H3 1 240 0 one_address 5760 true listening_server first_connection
              (fun _ => []) payload_a heartbeat 255 190 eq_refl)
    as (_ & _ & M & _).
  exact M.
Defined.

Lemma server_invariant_over_lifetime_witness :
  server_inv (snd (state_of (toy_server_run first_client_receiving listening_server))).
Proof.
  apply (server_invariant_over_lifetime true (fun _ => 0) toy_finalize
           toy_to_send_buffer (list byte) toy_parse_char
           1 240 0 one_address 5760 true listening_server
           first_client_receiving (fun _ => [])).
  reflexivity.
Defined.

Lemma severed_client_is_deleted_inside_its_close_witness :
  let before := state_of (toy_server_run first_client_receiving listening_server) in
  let after :=
    state_of (toy_server_step
                (MAVConnTCPServer.Io_client 100 MAVConnTCPServer.Recv_error)
                before) in
  failure_of (toy_server_step
                (MAVConnTCPServer.Io_client 100 MAVConnTCPServer.Recv_error)
                before)
  = Some UseAfterFree
  /\ (forall ch, fst after ch = fst before ch)
  /\ MAVConnTCPServer.client_list (snd after)
     = MAVConnTCPServer.remove 100 (MAVConnTCPServer.client_list (snd before))
  /\ MAVConnTCPServer.acceptor (snd after) = true
  /\ MAVConnTCPServer.accept_ops (snd after)
     = MAVConnTCPServer.accept_ops (snd before)
  /\ MAVConnTCPServer.posted (snd after) = MAVConnTCPServer.posted (snd before)
  /\ MAVConnTCPServer.trace (snd after) = MAVConnTCPServer.trace (snd before).
Proof.
  apply (severed_client_is_deleted_inside_its_close true (fun _ => 0) toy_finalize
           toy_to_send_buffer (list byte) toy_parse_char
           1 240 0 one_address 5760 true listening_server
           first_client_receiving (fun _ => []) 100 accepted_client).
  - reflexivity.
  - reflexivity.
  - reflexivity.
  - discriminate.
Defined.

(** ** The receive path *)

Section ReceivePath.

Variable MAVLINK_CRC_EXTRA : bool.
Variable mavlink_crcs : Z -> Z.
Variable mavlink_finalize_message_chan :
  mavlink_message_t -> Z -> Z -> Z -> Z -> option Z -> mavlink_message_t.
Variable mavlink_msg_to_send_buffer : mavlink_message_t -> list byte.
Variable mavlink_status_t : Type.
Variable mavlink_parse_char :
  Z -> byte -> mavlink_status_t -> mavlink_status_t * option mavlink_message_t.

Import MAVConnTCPClient.

Local Abbreviation step :=
  (MAVConnTCPClient.step MAVLINK_CRC_EXTRA mavlink_crcs
     mavlink_finalize_message_chan mavlink_msg_to_send_buffer mavlink_parse_char).
Local Abbreviation run :=
  (MAVConnTCPClient.run MAVLINK_CRC_EXTRA mavlink_crcs
     mavlink_finalize_message_chan mavlink_msg_to_send_buffer mavlink_parse_char).
Local Abbreviation decoded chan received st :=
  (decode mavlink_parse_char chan received st).

Lemma decode_app chan (a b : list byte) : forall st,
  decoded chan (a ++ b) st
  = (fst (decoded chan b (fst (decoded chan a st))),
     snd (decoded chan a st) ++ snd (decoded chan b (fst (decoded chan a st)))).
Proof.
  induction a as [|x a IH]; intro st.
  - cbn. now destruct (decoded chan b st).
  - cbn [app decode]. destruct (mavlink_parse_char chan x st) as [st1 parsed].
    rewrite IH. destruct (decoded chan a st1) as [st2 ms]. cbn [fst snd].
    destruct (decoded chan b st2) as [st3 ms']. cbn [fst snd].
    now destruct parsed.
Qed.

(** The loop of [async_receive_end] emits what [decode] lists. *)
Lemma feed_decode (received : list byte) : forall st c,
  fold_left (feed mavlink_parse_char) received (st, c)
  = (fst (decoded (channel c) received st),
     with_trace (trace c ++ map announce (snd (decoded (channel c) received st))) c).
Proof.
  induction received as [|b l IH]; intros st c.
  - cbn. rewrite app_nil_r. now destruct c.
  - cbn [fold_left decode]. unfold feed at 2.
    destruct (mavlink_parse_char (channel c) b st) as [st1 [m|]].
    + rewrite IH. cbn [channel act with_trace trace].
      destruct (decoded (channel c) l st1) as [st2 ms]. cbn [fst snd map].
      unfold announce at 2. now rewrite <- app_assoc.
    + rewrite IH. now destruct (decoded (channel c) l st1).
Qed.

Lemma recv_done_decodes received st c :
  rx_ops c <> 0%nat ->
  step (Io_recv_done received) (st, c)
  = Ok (fst (decoded (channel c) received st),
        with_trace
          (trace c ++ map announce (snd (decoded (channel c) received st))) c).
Proof.
  intro N. cbn [MAVConnTCPClient.step]. unfold recv_completes.
  destruct (rx_ops c) as [|n] eqn:R; [contradiction|].
  unfold async_receive_end. rewrite feed_decode. cbn [channel with_rx_ops trace].
  destruct (decoded (channel c) received st) as [st' ms]. cbn [fst snd].
  destruct c. cbn in R |- *. now subst.
Qed.

(** A completed receive of any bytes, on a client with a receive
    outstanding: the handler returns; the bytes went through the parser
    in order, starting from the state the parser was left in; one
    [message_received] was fired for each message the parser completed,
    in order, with the message's own identity; a receive is outstanding
    again; nothing else about the channel has changed. *)
Theorem receive_emits_decoded_messages_in_order received st c :
  rx_ops c <> 0%nat ->
  step (Io_recv_done received) (st, c)
  = Ok (fst (decoded (channel c) received st),
        with_trace
          (trace c ++ map announce (snd (decoded (channel c) received st))) c).
Proof. apply recv_done_decodes. Qed.

(** How the socket cuts the stream into receives does not matter: two
    receives, of [a] and then of [b], leave the channel and the parser
    exactly where one receive of [a ++ b] leaves them. *)
Theorem receive_boundaries_do_not_matter a b st c :
  rx_ops c <> 0%nat ->
  run [Io_recv_done a; Io_recv_done b] (st, c)
  = run [Io_recv_done (a ++ b)] (st, c).
Proof.
  intro N. cbn [MAVConnTCPClient.run].
  rewrite (recv_done_decodes a st c N).
  rewrite (recv_done_decodes (a ++ b) st c N).
  rewrite recv_done_decodes by (destruct c; exact N).
  cbn [channel with_trace trace]. rewrite decode_app. cbn [fst snd].
  rewrite map_app, app_assoc. now destruct c.
Qed.


(** *** At most one receive *)

Lemma recv_posted_app l m :
  recv_posted (l ++ m) = (recv_posted l + recv_posted m)%nat.
Proof. unfold recv_posted. now rewrite filter_app, length_app. Qed.

Lemma step_one_receive e st c :
  let c' := snd (state_of (step e (st, c))) in
  (rx_ops c' + recv_posted (posted c') <= rx_ops c + recv_posted (posted c))%nat.
Proof.
  cbv zeta. destruct e.
  7: { destruct (rx_ops c) as [|n] eqn:R.
       - cbn [MAVConnTCPClient.step]. unfold recv_completes. rewrite R.
         cbn -[recv_posted]. lia.
       - rewrite recv_done_decodes by congruence. cbn -[recv_posted]. lia. }
  all: unfold MAVConnTCPClient.step, on_client, recv_completes,
    async_receive_end, send_bytes, send_message, close, join, run_posted,
    write_done, write_error, async_send_end, do_send, close, join, is_open.
  all: destruct c; cbn -[recv_posted].
  all: repeat (break_inner; cbn -[recv_posted]);
    rewrite ?recv_posted_app; unfold recv_posted; cbn; try lia.
Qed.

(** From the construction of a client-mode channel on, whatever is called
    and whatever its I/O thread does, the receives outstanding and the
    [do_recv] still posted are never more than one together: the channel
    never has two reads on its socket. *)
Theorem at_most_one_receive_outstanding
    system_id component_id chan r server_port connect_ok c0 es st :
  new_client system_id component_id chan r server_port connect_ok
  = Constructed c0 ->
  let c := snd (state_of (run es (st, c0))) in
  (rx_ops c + recv_posted (posted c) <= 1)%nat.
Proof.
  intro H. cbv zeta.
  assert (B : (rx_ops c0 + recv_posted (posted c0) <= 1)%nat).
  { unfold new_client in H.
    destruct (resolve_address_tcp r server_port endpoint_default) as [[] ep];
      cbn in H; [|discriminate].
    destruct connect_ok; cbn in H; [|discriminate].
    injection H as <-. cbn. lia. }
  clear H. revert st c0 B. induction es as [|e es IH]; intros st c0 B; [exact B|].
  cbn [MAVConnTCPClient.run]. pose proof (step_one_receive e st c0) as S.
  cbv zeta in S.
  destruct (step e (st, c0)) as [[st' c']|f [st' c']]; cbn in S |- *.
  - apply IH. lia.
  - lia.
Qed.

(** *** A closed channel *)

Lemma step_closed e st c :
  socket c = false -> tx_q c = [] ->
  let c' := snd (state_of (step e (st, c))) in
  socket c' = false /\ tx_q c' = []
  /\ (List.length (tx_ops c') <= List.length (tx_ops c))%nat
  /\ port_closed_count (trace c') = port_closed_count (trace c).
Proof.
  intros S Q. cbv zeta. destruct e.
  7: { destruct (rx_ops c) as [|n] eqn:R.
       - cbn [MAVConnTCPClient.step]. unfold recv_completes. rewrite R. cbn. auto.
       - rewrite recv_done_decodes by congruence. cbn -[port_closed_count].
         rewrite port_closed_count_app.
         assert (Z : port_closed_count
                       (map announce (snd (decoded (channel c) received st)))
                     = 0%nat).
         { apply port_closed_count_none. apply Forall_map.
           apply Forall_forall. intros; reflexivity. }
         rewrite Z. repeat split; auto. }
  all: unfold MAVConnTCPClient.step, on_client, recv_completes,
    async_receive_end, send_bytes, send_message, close, join, run_posted,
    write_done, write_error, async_send_end, do_send, close, join, is_open.
  all: destruct c; cbn in S, Q; subst; cbn.
  all: repeat (break_inner; cbn); repeat split; auto.
Qed.

(** Once [close] has run on an open client channel, whatever is called
    and whatever completions still arrive: the socket stays closed, the
    queue stays empty, no new write is ever started (the writes
    outstanding only get fewer), and [port_closed] is not fired again. *)
Theorem closed_channel_stays_closed self c es st :
  socket c = true ->
  let closed := state_of (close self c) in
  let c' := snd (state_of (run es (st, closed))) in
  socket c' = false /\ tx_q c' = []
  /\ (List.length (tx_ops c') <= List.length (tx_ops c))%nat
  /\ port_closed_count (trace c') = S (port_closed_count (trace c)).
Proof.
  intro O. cbv zeta.
  assert (B : socket (state_of (close self c)) = false
              /\ tx_q (state_of (close self c)) = []
              /\ (List.length (tx_ops (state_of (close self c)))
                  <= List.length (tx_ops c))%nat
              /\ port_closed_count (trace (state_of (close self c)))
                 = S (port_closed_count (trace c))).
  { unfold close, join. destruct c as [? ? ? ? ? ? ? j s ? ? ? ? ? t].
    cbn in O. subst s. cbn -[port_closed_count].
    destruct j, self; cbn -[port_closed_count];
      rewrite !port_closed_count_app; cbn; repeat split; auto; lia. }
  revert B. generalize (state_of (close self c)). intro d. revert st d.
  induction es as [|e es IH]; intros st d B; [exact B|].
  cbn [MAVConnTCPClient.run]. destruct B as (B1 & B2 & B3 & B4).
  pose proof (step_closed e st d B1 B2) as S. cbv zeta in S.
  destruct S as (S1 & S2 & S3 & S4).
  destruct (step e (st, d)) as [[st' d']|f [st' d']]; cbn in S1, S2, S3, S4 |- *.
  - apply IH. repeat split; auto; [lia | congruence].
  - repeat split; auto; [lia | congruence].
Qed.


(** *** A client-mode channel over its life *)

Lemma step_keeps_thread e st c :
  implb (socket c) (io_thread c) = true ->
  let c' := snd (state_of (step e (st, c))) in
  implb (socket c') (io_thread c') = true.
Proof.
  intro I. cbv zeta. destruct e.
  7: { destruct (rx_ops c) as [|n] eqn:R.
       - cbn [MAVConnTCPClient.step]. unfold recv_completes. rewrite R. exact I.
       - rewrite recv_done_decodes by congruence. exact I. }
  all: unfold MAVConnTCPClient.step, on_client, recv_completes,
    async_receive_end, send_bytes, send_message, close, join, run_posted,
    write_done, write_error, async_send_end, do_send, close, join, is_open.
  all: destruct c; cbn in I |- *.
  all: repeat (break_inner; cbn); try exact I; try reflexivity.
Qed.

Lemma run_keeps_thread es : forall st c,
  implb (socket c) (io_thread c) = true ->
  implb (socket (snd (state_of (run es (st, c)))))
        (io_thread (snd (state_of (run es (st, c))))) = true.
Proof.
  induction es as [|e es IH]; intros st c I; [exact I|].
  cbn [MAVConnTCPClient.run]. pose proof (step_keeps_thread e st c I) as I'.
  cbv zeta in I'.
  destruct (step e (st, c)) as [[st' c']|f [st' c']]; cbn in I' |- *.
  - now apply IH.
  - exact I'.
Qed.

Lemma new_client_state system_id component_id chan r server_port connect_ok c0 :
  new_client system_id component_id chan r server_port connect_ok
  = Constructed c0 ->
  socket c0 = true /\ io_thread c0 = true /\ tx_in_progress c0 = Some false.
Proof.
  unfold new_client.
  destruct (resolve_address_tcp r server_port endpoint_default) as [[] ep];
    cbn; [|discriminate].
  destruct connect_ok; cbn; [|discriminate].
  intros [= <-]. repeat split.
Qed.

(** On a client-mode channel, at any time of its life, an I/O error while
    the channel is open always ends in the thrown join: the failing
    receive (or write) completes on the I/O thread, its handler calls
    [close], and [close], having closed the socket, cleared the queue and
    fired [port_closed], joins the thread it runs on. *)
Theorem io_error_on_open_client_always_throws
    system_id component_id chan r server_port connect_ok c0 es st e :
  new_client system_id component_id chan r server_port connect_ok
  = Constructed c0 ->
  let before := state_of (run es (st, c0)) in
  socket (snd before) = true ->
  e = Io_recv_error /\ rx_ops (snd before) <> 0%nat
  \/ e = Io_write_error /\ tx_ops (snd before) <> [] ->
  let after := step e before in
  failure_of after = Some SystemError
  /\ socket (snd (state_of after)) = false
  /\ tx_q (snd (state_of after)) = []
  /\ trace (snd (state_of after))
     = trace (snd before) ++ [IoStop; SocketClose; TxClear; Emit port_closed].
Proof.
  intro H. cbv zeta. apply new_client_state in H. destruct H as (S0 & J0 & _).
  assert (I : implb (socket (snd (state_of (run es (st, c0)))))
                    (io_thread (snd (state_of (run es (st, c0))))) = true).
  { apply run_keeps_thread. now rewrite S0, J0. }
  destruct (state_of (run es (st, c0))) as [st1 c]. cbn [snd] in *.
  intros S [[-> N]|[-> N]]; rewrite S in I; cbn in I.
  - cbn [MAVConnTCPClient.step]. unfold recv_completes.
    destruct (rx_ops c) as [|n]; [contradiction|].
    unfold async_receive_end, close, join. cbn [socket with_rx_ops teardown act
      with_trace io_thread trace tx_q]. rewrite S, I. cbn.
    rewrite <- !app_assoc. repeat split.
  - cbn [MAVConnTCPClient.step]. unfold write_error.
    destruct (tx_ops c) as [|w rest]; [contradiction|].
    unfold async_send_end, close, join. cbn [socket with_tx_ops teardown act
      with_trace io_thread trace tx_q]. rewrite S, I. cbn.
    rewrite <- !app_assoc. repeat split.
Qed.

(** On a client-mode channel [tx_in_progress] is false at construction
    and nothing ever writes it: at any time of the channel's life the
    test in [do_send] finds it false, and a drain that is to respect a
    write in progress does exactly what a drain that is not does. *)
Theorem in_progress_check_never_holds_back_a_drain
    system_id component_id chan r server_port connect_ok c0 es st :
  new_client system_id component_id chan r server_port connect_ok
  = Constructed c0 ->
  let c := snd (state_of (run es (st, c0))) in
  tx_in_progress c = Some false /\ do_send true c = do_send false c.
Proof.
  intro H. cbv zeta. apply new_client_state in H. destruct H as (_ & _ & F).
  pose proof (run_tx_in_progress MAVLINK_CRC_EXTRA mavlink_crcs
                mavlink_finalize_message_chan mavlink_msg_to_send_buffer
                mavlink_status_t mavlink_parse_char es st c0) as T.
  rewrite F in T. split; [exact T|]. unfold do_send. now rewrite T.
Qed.

End ReceivePath.

(** ** The transmit queue, call after call *)

Section SendOrder.

Import MAVConnTCPClient.

(** [send_bytes] calls made in a row on an open channel all return; the
    queue has grown at its back by one buffer per call, in call order,
    each holding its payload with the cursor at the start; one
    [do_send(true)] per call was posted; nothing else has changed, and in
    particular nothing was written by the calling thread. *)
Theorem sends_enqueue_in_call_order (payloads : list (list byte)) (c : Client) :
  is_open c = true ->
  send_all payloads c
  = Ok (with_posted
          (posted c ++ repeat (do_send_h true) (List.length payloads))
          (with_tx_q (tx_q c ++ map MsgBuffer_of_bytes payloads) c)).
Proof.
  revert c. induction payloads as [|bytes payloads IH]; intros c O.
  - cbn. rewrite !app_nil_r. now destruct c.
  - cbn [send_all]. unfold send_bytes at 1. rewrite O. cbn [negb bind].
    rewrite IH by exact O. cbn [posted tx_q with_posted with_tx_q List.length repeat map].
    rewrite <- !app_assoc. reflexivity.
Qed.

(** Completions of writes change nothing but the queue, the outstanding
    writes and the wire. *)
Lemma write_done_frame n c :
  let c' := state_of (write_done n c) in
  returns (write_done n c) = true
  /\ socket c' = socket c /\ io_stopped c' = io_stopped c
  /\ tx_in_progress c' = tx_in_progress c /\ posted c' = posted c.
Proof.
  unfold write_done, async_send_end, do_send. destruct c; cbn.
  repeat (break_inner; cbn); repeat split; reflexivity.
Qed.

Lemma completions_frame ns : forall c,
  let c' := state_of (completions ns c) in
  returns (completions ns c) = true
  /\ socket c' = socket c /\ io_stopped c' = io_stopped c
  /\ tx_in_progress c' = tx_in_progress c /\ posted c' = posted c.
Proof.
  induction ns as [|n ns IH]; intro c; [cbn; auto 6|].
  cbn [completions]. pose proof (write_done_frame n c) as F. cbv zeta in F.
  destruct F as (R & F1 & F2 & F3 & F4).
  destruct (write_done n c) as [c1|f c1]; [|discriminate]. cbn in F1, F2, F3, F4.
  cbn [bind]. specialize (IH c1). cbv zeta in IH.
  destruct IH as (R' & G1 & G2 & G3 & G4).
  repeat split; congruence.
Qed.

(** One send whose writes complete in full leaves the channel idle. *)
Lemma single_send_full bytes ns c :
  idle c -> bytes <> [] -> (List.length bytes <= list_sum ns)%nat ->
  exists c', single_send bytes ns c = Ok c'
             /\ idle c' /\ wire c' = wire c ++ bytes.
Proof.
  intros (S & R & F & Q & O & P) N L.
  assert (L0 : (0 < List.length bytes)%nat)
    by (destruct bytes; [contradiction | cbn; lia]).
  unfold single_send, send_bytes, is_open. rewrite S. cbn [negb bind].
  unfold run_posted. cbn [io_stopped with_posted with_tx_q posted].
  rewrite R, P, Q. cbn [app]. unfold do_send.
  cbn [tx_in_progress with_posted with_tx_q tx_q tx_ops]. rewrite F, O.
  cbn [app bind]. unfold MsgBuffer_of_bytes.
  change (buffer {| data := bytes; pos := 0 |})
    with (buffer {| data := bytes; pos := Z.of_nat 0 |}).
  rewrite buffer_at by lia.
  match goal with |- context [completions ns ?x] => set (c1 := x) end.
  pose proof (drain_front bytes ns 0 c1 eq_refl eq_refl L0) as H.
  cbv zeta in H. destruct H as (Ret & W & D). cbn [skipn Nat.add] in W, D.
  pose proof (completions_frame ns c1) as Fr. cbv zeta in Fr.
  destruct Fr as (_ & F1 & F2 & F3 & F4).
  destruct (completions ns c1) as [c'|f c']; [|discriminate].
  cbn [state_of] in *. exists c'. split; [reflexivity|].
  destruct D as [(D1 & D2 & _)|(_ & _ & D3)]; [|lia].
  split.
  - repeat split; try assumption; subst c1; cbn in F1, F2, F3, F4; congruence.
  - rewrite W. subst c1. cbn [wire with_tx_ops with_posted with_tx_q].
    now rewrite firstn_all2 by lia.
Qed.

(** When every send is drained before the next one is made, the transmit
    queue is first in, first out without loss: on an idle channel, sends
    of non-empty payloads, each followed by write completions that add up
    to at least its length (however they are split), all return, leave the
    channel idle again, and the socket has transmitted exactly the
    payloads one after the other in call order. *)
Theorem serial_sends_arrive_in_order (sends : list (list byte * list nat))
    (c : Client) :
  idle c ->
  Forall (fun s => fst s <> [] /\ (List.length (fst s) <= list_sum (snd s))%nat)
         sends ->
  exists c', serial_sends sends c = Ok c'
             /\ idle c'
             /\ wire c' = wire c ++ List.concat (map fst sends).
Proof.
  intros I F. revert c I. induction F as [|[bytes ns] sends [N L] _ IH];
    intros c I.
  - exists c. cbn. rewrite app_nil_r. auto.
  - cbn [serial_sends]. cbn [fst snd] in N, L.
    destruct (single_send_full bytes ns c I N L) as (c1 & E & I1 & W1).
    rewrite E. cbn [bind]. destruct (IH c1 I1) as (c' & E' & I' & W').
    exists c'. split; [exact E'|]. split; [exact I'|].
    rewrite W', W1. cbn [map List.concat fst]. now rewrite app_assoc.
Qed.

End SendOrder.

(** ** The constructors *)

(** What constructing a channel comes to.  The resolution of the host is
    tried first: with no entry or a resolver error the constructor throws
    [DeviceError] "tcp: resolve" (server: "tcp-l: resolve") whatever the
    socket would do; with the host resolved and the socket calls failing
    it throws [DeviceError] "tcp" ("tcp-l"); otherwise it builds the
    channel: open, on the last resolved address with the requested port,
    nothing queued and no signal fired, its I/O thread running, with
    exactly the first [do_recv] (server: [do_accept]) posted. *)
Theorem constructors_throw_or_build_open_channel
    system_id component_id chan r server_port ok :
  (MAVConnTCPClient.new_client system_id component_id chan r server_port ok
   = DeviceError "tcp: resolve" <-> entries r = [] \/ ec r <> 0)
  /\ (MAVConnTCPClient.new_client system_id component_id chan r server_port ok
      = DeviceError "tcp" <-> entries r <> [] /\ ec r = 0 /\ ok = false)
  /\ (entries r <> [] /\ ec r = 0 /\ ok = true <->
      exists c,
        MAVConnTCPClient.new_client system_id component_id chan r server_port ok
        = Constructed c
        /\ MAVConnTCPClient.server_ep c
           = set_port (last (entries r) endpoint_default) server_port
        /\ MAVConnTCPClient.socket c = true
        /\ MAVConnTCPClient.io_thread c = true
        /\ MAVConnTCPClient.tx_q c = []
        /\ MAVConnTCPClient.posted c = [do_recv_h]
        /\ MAVConnTCPClient.trace c = [])
  /\ (MAVConnTCPServer.new_server system_id component_id chan r server_port ok
      = DeviceError "tcp-l: resolve" <-> entries r = [] \/ ec r <> 0)
  /\ (MAVConnTCPServer.new_server system_id component_id chan r server_port ok
      = DeviceError "tcp-l" <-> entries r <> [] /\ ec r = 0 /\ ok = false)
  /\ (entries r <> [] /\ ec r = 0 /\ ok = true <->
      exists s,
        MAVConnTCPServer.new_server system_id component_id chan r server_port ok
        = Constructed s
        /\ MAVConnTCPServer.bind_ep s
           = set_port (last (entries r) endpoint_default) server_port
        /\ MAVConnTCPServer.acceptor s = true
        /\ MAVConnTCPServer.io_thread s = true
        /\ MAVConnTCPServer.client_list s = []
        /\ MAVConnTCPServer.posted s = [MAVConnTCPServer.do_accept_h]
        /\ MAVConnTCPServer.trace s = []).
Proof.
  unfold MAVConnTCPClient.new_client, MAVConnTCPServer.new_server.
  destruct (resolve_address_tcp_cases r server_port endpoint_default)
    as [(N & E & R)|([N|N] & R)].
  - rewrite R. cbn [negb]. destruct ok; cbn [negb].
    all: repeat split; try discriminate; try tauto.
    all: try (intros [H|H]; congruence).
    all: try (intros _; eexists; repeat split; reflexivity).
    all: try (intros (_ & _ & H); discriminate).
    all: try (intros (x & H & _); discriminate).
    all: try match goal with
             | H : exists _, _ |- _ => destruct H as (x & H & _); discriminate
             end.
  - destruct (resolve_address_tcp r server_port endpoint_default) as [b ep].
    cbn in R. subst b. cbn [negb].
    repeat split; try discriminate; try tauto; auto.
    all: try (intros (x & H & _); discriminate).
    all: try match goal with
             | H : exists _, _ |- _ => destruct H as (x & H & _); discriminate
             end.
  - destruct (resolve_address_tcp r server_port endpoint_default) as [b ep].
    cbn in R. subst b. cbn [negb].
    repeat split; try discriminate; try tauto; auto.
    all: try (intros (x & H & _); discriminate).
    all: try match goal with
             | H : exists _, _ |- _ => destruct H as (x & H & _); discriminate
             end.
Qed.

(** ** The accept loop and the registry *)

Section AcceptLoop.

Variable MAVLINK_CRC_EXTRA : bool.
Variable mavlink_crcs : Z -> Z.
Variable mavlink_finalize_message_chan :
  mavlink_message_t -> Z -> Z -> Z -> Z -> option Z -> mavlink_message_t.
Variable mavlink_msg_to_send_buffer : mavlink_message_t -> list byte.
Variable mavlink_status_t : Type.
Variable mavlink_parse_char :
  Z -> byte -> mavlink_status_t -> mavlink_status_t * option mavlink_message_t.

Import MAVConnTCPServer.

Local Abbreviation step :=
  (MAVConnTCPServer.step MAVLINK_CRC_EXTRA mavlink_crcs
     mavlink_finalize_message_chan mavlink_msg_to_send_buffer mavlink_parse_char).
Local Abbreviation run :=
  (MAVConnTCPServer.run MAVLINK_CRC_EXTRA mavlink_crcs
     mavlink_finalize_message_chan mavlink_msg_to_send_buffer mavlink_parse_char).
Local Abbreviation client_step :=
  (MAVConnTCPClient.step MAVLINK_CRC_EXTRA mavlink_crcs
     mavlink_finalize_message_chan mavlink_msg_to_send_buffer mavlink_parse_char).
Local Abbreviation decoded chan received st :=
  (decode mavlink_parse_char chan received st).

Lemma accept_posted_app l m :
  accept_posted (l ++ m) = (accept_posted l + accept_posted m)%nat.
Proof. unfold accept_posted. now rewrite filter_app, length_app. Qed.

Lemma step_one_accept e ps s :
  let s' := snd (state_of (step e (ps, s))) in
  (accept_ops s' + accept_posted (posted s')
   <= accept_ops s + accept_posted (posted s))%nat.
Proof.
  cbv zeta.
  assert (S : forall o, snd (state_of (on_server ps o)) = state_of o)
    by (intros [|]; reflexivity).
  assert (C : forall o, state_of (on_clients s o) = with_client_list (state_of o) s)
    by (intros [|]; reflexivity).
  assert (Cl : forall self s0,
             (accept_ops (state_of (close self s0))
              + accept_posted (posted (state_of (close self s0)))
              <= accept_ops s0 + accept_posted (posted s0))%nat).
  { intros self s0. pose proof (server_close_fields self s0) as F.
    cbv zeta in F. destruct F as (F1 & F2 & _). rewrite F1, F2. lia. }
  destruct e as [bytes|message sysid compid|self| |from available chan p| |p k];
    cbn [MAVConnTCPServer.step]; rewrite ?S.
  - unfold send_bytes. rewrite C. cbn -[accept_posted]. lia.
  - unfold send_message. rewrite C. cbn -[accept_posted]. lia.
  - apply Cl.
  - cbn [snd state_of]. unfold run_posted. destruct (io_stopped s); [lia|].
    destruct (posted s) as [|h rest] eqn:Q; [rewrite Q; lia|].
    destruct h as [|p]; cbn -[store].
    + unfold accept_posted. cbn. lia.
    + destruct (lookup p (client_list s)); cbn -[store];
        unfold accept_posted; cbn; lia.
  - destruct (io_stopped s); [cbn [snd state_of]; lia|]. rewrite S.
    unfold accept_completes. destruct (accept_ops s) as [|n] eqn:A;
      [cbn [state_of]; rewrite A; lia|].
    unfold async_accept_end. destruct (available <=? 0).
    + cbn -[accept_posted]. lia.
    + cbn -[accept_posted]. rewrite accept_posted_app.
      unfold accept_posted at 2. cbn. lia.
  - destruct (io_stopped s); [cbn [snd state_of]; lia|]. rewrite S.
    unfold accept_completes. destruct (accept_ops s) as [|n] eqn:A;
      [cbn [state_of]; rewrite A; lia|].
    unfold async_accept_end.
    specialize (Cl IoThread (with_accept_ops n s)).
    cbn -[accept_posted close] in Cl. lia.
  - destruct (io_stopped s); [cbn [snd state_of]; lia|]. unfold client_completes.
    destruct (lookup p (client_list s)) as [c|]; [|cbn [snd state_of]; lia].
    destruct (client_step (client_event k) (ps (Client.channel c), c))
      as [[st c']|f [st c']].
    + pose proof (slots_summary p
                    (skipn (List.length (Client.trace c)) (Client.trace c'))
                    (with_client_list (store p c' (client_list s)) s)) as Sl.
      cbv zeta in Sl. destruct Sl as (_ & _ & S3 & S4 & _ & _).
      destruct (slots p _ _); cbn [snd state_of] in *; rewrite S3, S4;
        cbn -[accept_posted]; lia.
    + cbn -[accept_posted store]. lia.
Qed.

Lemma accept_budget
    system_id component_id chan r server_port listen_ok s0 es ps :
  new_server system_id component_id chan r server_port listen_ok
  = Constructed s0 ->
  let s := snd (state_of (run es (ps, s0))) in
  (accept_ops s + accept_posted (posted s) <= 1)%nat.
Proof.
  intro H. cbv zeta.
  assert (B : (accept_ops s0 + accept_posted (posted s0) <= 1)%nat).
  { unfold new_server in H.
    destruct (resolve_address_tcp r server_port endpoint_default) as [[] ep];
      cbn in H; [|discriminate].
    destruct listen_ok; cbn in H; [|discriminate].
    injection H as <-. cbn. lia. }
  clear H. revert ps s0 B. induction es as [|e es IH]; intros ps s0 B; [exact B|].
  cbn [MAVConnTCPServer.run]. pose proof (step_one_accept e ps s0) as S.
  cbv zeta in S.
  destruct (step e (ps, s0)) as [[ps' s']|f [ps' s']]; cbn in S |- *.
  - apply IH. lia.
  - lia.
Qed.

(** From the construction of a server on, whatever is called and whatever
    its I/O thread does, the accepts outstanding and the [do_accept] still
    posted are never more than one together: [client_sock] is never handed
    to two accepts. *)
Theorem at_most_one_accept_outstanding
    system_id component_id chan r server_port listen_ok s0 es ps :
  new_server system_id component_id chan r server_port listen_ok
  = Constructed s0 ->
  let s := snd (state_of (run es (ps, s0))) in
  (accept_ops s + accept_posted (posted s) <= 1)%nat.
Proof. apply accept_budget. Qed.


(** Connections arriving one after the other while channels are available,
    on a running server with an accept outstanding: every handler
    returns; the clients are registered at the back of the registry in
    arrival order, each open, with the server's identity, its own channel
    and its peer's endpoint; the clients registered before are untouched;
    the [do_recv] of each new client is posted; and as many accepts are
    outstanding as before, so the loop goes on. *)
Theorem accepted_clients_register_in_arrival_order (conns : list connection) :
  forall ps s,
    io_stopped s = false -> accept_ops s <> 0%nat ->
    Forall (fun k => 0 < avail k) conns ->
    exists s',
      run (accepts conns) (ps, s) = Ok (ps, s')
      /\ client_list s' = client_list s ++ map (registered s) conns
      /\ posted s'
         = posted s ++ map (fun k => client_do_recv_h (new_instp k)) conns
      /\ accept_ops s' = accept_ops s
      /\ acceptor s' = acceptor s /\ io_stopped s' = false
      /\ trace s' = trace s
      /\ sys_id s' = sys_id s /\ comp_id s' = comp_id s.
Proof.
  induction conns as [|k conns IH]; intros ps s R A F.
  - exists s. cbn. rewrite !app_nil_r. auto 10.
  - inversion F as [|k' l' Hk Hl]; subst.
    cbn [accepts map MAVConnTCPServer.run MAVConnTCPServer.step].
    rewrite R. unfold accept_completes.
    destruct (accept_ops s) as [|n] eqn:An; [contradiction|].
    unfold async_accept_end.
    destruct (Z.leb_spec (avail k) 0) as [Le|_]; [lia|].
    cbn [on_server].
    match goal with |- context [run _ (ps, ?x)] => set (s1 := x) end.
    destruct (IH ps s1) as (s' & E & L & P & A' & C & R' & T & I1 & I2);
      [exact R | subst s1; cbn; discriminate | exact Hl |].
    exists s'. split; [exact E|].
    rewrite L, P, A', C, R', T, I1, I2. subst s1.
    cbn [client_list posted accept_ops acceptor trace sys_id comp_id
         do_accept with_accept_ops with_client_list with_posted with_client_sock
         client_sock client_ep].
    unfold registered at 2. cbn [sys_id comp_id].
    rewrite <- !app_assoc. repeat split; reflexivity.
Qed.

(** *** What the server makes of its clients' messages *)

Lemma slots_announce p (messages : list mavlink_message_t) : forall s,
  slots p (map announce messages) s
  = Ok {| channel := channel s; sys_id := sys_id s; comp_id := comp_id s;
          bind_ep := bind_ep s; io_stopped := io_stopped s;
          io_thread := io_thread s; acceptor := acceptor s;
          client_sock := client_sock s; client_ep := client_ep s;
          accept_ops := accept_ops s; posted := posted s;
          client_list := client_list s;
          trace := trace s ++ map announce messages |}.
Proof.
  induction messages as [|m ms IH]; intro s.
  - cbn. rewrite app_nil_r. now destruct s.
  - cbn [map]. unfold announce at 1. cbn [slots]. rewrite IH.
    unfold recv_message, act. cbn. rewrite <- app_assoc. reflexivity.
Qed.

(** A completed receive of a registered client, on a running server: the
    handler returns; the bytes went through the parser of the client's
    channel; the server fired [message_received] once for each message
    the parser completed, in order and unchanged, as the client did; the
    client has a receive outstanding again; the registry has the same
    members, and the acceptor, the accepts and the posted handlers are as
    before. *)
Theorem server_republishes_client_messages p received ps s c :
  io_stopped s = false ->
  lookup p (client_list s) = Some c ->
  Client.rx_ops c <> 0%nat ->
  let chan := Client.channel c in
  let messages := snd (decoded chan received (ps chan)) in
  exists s',
    step (Io_client p (Recv_done received)) (ps, s)
    = Ok (set_parser chan (fst (decoded chan received (ps chan))) ps, s')
    /\ trace s' = trace s ++ map announce messages
    /\ client_list s'
       = store p (Client.with_trace
                    (Client.trace c ++ map announce messages) c)
           (client_list s)
    /\ map instp (client_list s') = map instp (client_list s)
    /\ acceptor s' = acceptor s /\ accept_ops s' = accept_ops s
    /\ posted s' = posted s.
Proof.
  intros R L N. cbv zeta. cbn [MAVConnTCPServer.step]. rewrite R.
  unfold client_completes. rewrite L. cbn [client_event].
  rewrite (recv_done_decodes MAVLINK_CRC_EXTRA mavlink_crcs
             mavlink_finalize_message_chan mavlink_msg_to_send_buffer
             mavlink_status_t mavlink_parse_char received
             (ps (Client.channel c)) c N).
  cbn [Client.trace Client.with_trace]. rewrite skipn_past, slots_announce.
  eexists. split; [reflexivity|]. cbn [trace client_list acceptor accept_ops posted
    with_client_list].
  repeat split. unfold store. rewrite map_map. apply map_ext_in.
  intros en _. now destruct (instp en =? p) eqn:Q; [apply Z.eqb_eq in Q|].
Qed.


Lemma accept_posted_none l : accept_posted l = 0%nat -> ~ In do_accept_h l.
Proof.
  unfold accept_posted. induction l as [|h l IH]; cbn; [tauto|].
  destruct h; cbn; [discriminate|].
  intros E [D|I]; [discriminate | now apply IH].
Qed.

(** At any time of a server's life, a connection that arrives while no
    channel is available ends the accept loop: the handler closes
    [client_sock], touches neither registry, acceptor nor trace, and
    returns without calling [do_accept]; as at most one accept was
    outstanding or posted, none is left, and whatever happens afterwards
    the registry never gains a client. *)
Theorem rejected_connection_always_ends_accept_loop
    system_id component_id chan r server_port listen_ok s0 es ps
    peer avail new_chan p :
  new_server system_id component_id chan r server_port listen_ok
  = Constructed s0 ->
  let before := state_of (run es (ps, s0)) in
  io_stopped (snd before) = false ->
  accept_ops (snd before) <> 0%nat ->
  avail <= 0 ->
  let after := state_of (step (Io_accept_done peer avail new_chan p) before) in
  returns (step (Io_accept_done peer avail new_chan p) before) = true
  /\ client_sock (snd after) = false
  /\ client_list (snd after) = client_list (snd before)
  /\ acceptor (snd after) = acceptor (snd before)
  /\ trace (snd after) = trace (snd before)
  /\ not_accepting (snd after)
  /\ forall es',
       (List.length (client_list (snd (state_of (run es' after))))
        <= List.length (client_list (snd before)))%nat.
Proof.
  intro H. cbv zeta.
  pose proof (accept_budget system_id component_id chan r server_port
                listen_ok s0 es ps H) as B. cbv zeta in B. clear H.
  destruct (state_of (run es (ps, s0))) as [ps1 s]. cbn [snd] in *.
  intros R A V.
  assert (E : step (Io_accept_done peer avail new_chan p) (ps1, s)
              = Ok (ps1, with_client_sock false (client_ep
                           (with_client_sock true peer
                              (with_accept_ops (pred (accept_ops s)) s)))
                         (with_client_sock true peer
                            (with_accept_ops (pred (accept_ops s)) s)))).
  { cbn [MAVConnTCPServer.step]. rewrite R. unfold accept_completes.
    destruct (accept_ops s) as [|n]; [contradiction|].
    unfold async_accept_end. apply Z.leb_le in V. rewrite V. reflexivity. }
  rewrite E. cbn [state_of returns snd].
  assert (N : not_accepting
                (with_client_sock false (client_ep
                           (with_client_sock true peer
                              (with_accept_ops (pred (accept_ops s)) s)))
                         (with_client_sock true peer
                            (with_accept_ops (pred (accept_ops s)) s)))).
  { split; cbn; [lia|]. apply accept_posted_none. lia. }
  do 5 (split; [reflexivity|]). split; [exact N|].
  intro es'.
  apply (run_not_accepting MAVLINK_CRC_EXTRA mavlink_crcs
           mavlink_finalize_message_chan mavlink_msg_to_send_buffer
           mavlink_status_t mavlink_parse_char es' ps1 _ N).
Qed.

End AcceptLoop.

(** ** close() from two threads, in every interleaving *)

Lemma close_race_step t w w' :
  close_race w = true -> TwoThreads.advance t w = Some w' ->
  close_race w' = true.
Proof.
  destruct w as [c m pe pi].
  destruct c as [? ? ? ? ? ? ? j s ? ? ? ? ? ?].
  unfold close_race. cbn.
  destruct pe, pi, m as [[[] [|[|?]]]|], s, j; try discriminate; intros _;
    destruct t; cbn; try discriminate; intros [= <-]; reflexivity.
Qed.

Lemma close_race_schedule ts : forall w w',
  close_race w = true -> TwoThreads.schedule ts w = Some w' ->
  close_race w' = true.
Proof.
  induction ts as [|t ts IH]; intros w w' G H.
  - cbn in H. now injection H as <-.
  - cbn [TwoThreads.schedule] in H.
    destruct (TwoThreads.advance t w) as [w1|] eqn:A; [|discriminate].
    eapply IH; [|exact H]. eapply close_race_step; eassumption.
Qed.

(** An external thread and the I/O thread both call [close] on an open
    client-mode channel, one with a joinable I/O thread.  However their
    steps interleave, the call on the I/O thread never returns: it is
    waiting for the mutex, is on its way to the join, or has thrown at
    the join.  The external call returns only after the one on the I/O
    thread has thrown, and while the I/O thread waits for the mutex the
    external thread holds it.  The channel's thread is never joined. *)
Theorem concurrent_close_never_returns_on_io_thread c ts w :
  MAVConnTCPClient.socket c = true ->
  MAVConnTCPClient.io_thread c = true ->
  TwoThreads.schedule ts (TwoThreads.both c) = Some w ->
  TwoThreads.pc_io w <> TwoThreads.Returned
  /\ (TwoThreads.pc_external w = TwoThreads.Returned ->
      TwoThreads.pc_io w = TwoThreads.Thrown)
  /\ (TwoThreads.pc_external w = TwoThreads.AtJoin ->
      TwoThreads.pc_io w = TwoThreads.AtLock /\ TwoThreads.deadlocked w)
  /\ MAVConnTCPClient.io_thread (TwoThreads.chan w) = true.
Proof.
  intros S J H.
  assert (G : close_race w = true).
  { eapply close_race_schedule; [|exact H].
    unfold close_race, TwoThreads.both. cbn. now rewrite S, J. }
  clear H. destruct w as [d m pe pi].
  destruct d as [? ? ? ? ? ? ? j s ? ? ? ? ? ?].
  unfold close_race in G. cbn in G. unfold TwoThreads.deadlocked. cbn.
  destruct pe, pi, m as [[[] [|[|?]]]|], s, j; try discriminate G;
    repeat split; try discriminate; try reflexivity.
Qed.

(** ** The further theorems at concrete inputs *)

Lemma receive_emits_decoded_messages_in_order_witness :
  MAVConnTCPClient.step true (fun _ => 0) toy_finalize toy_to_send_buffer
    toy_parse_char (MAVConnTCPClient.Io_recv_done toy_stream)
    ([], receiving_client)
  = Ok (fst (decode toy_parse_char 0 toy_stream []),
        MAVConnTCPClient.with_trace
          (MAVConnTCPClient.trace receiving_client
           ++ map announce (snd (decode toy_parse_char 0 toy_stream [])))
          receiving_client).
Proof.
  apply (receive_emits_decoded_messages_in_order true (fun _ => 0) toy_finalize
           toy_to_send_buffer (list byte) toy_parse_char
           toy_stream [] receiving_client).
  discriminate.
Defined.

Lemma receive_boundaries_do_not_matter_witness :
  toy_client_run [MAVConnTCPClient.Io_recv_done [x0a; x0b];
                  MAVConnTCPClient.Io_recv_done [x00; x0c; x00; x0d]]
    receiving_client
  = toy_client_run
      [MAVConnTCPClient.Io_recv_done ([x0a; x0b] ++ [x00; x0c; x00; x0d])]
      receiving_client.
Proof.
  apply (receive_boundaries_do_not_matter true (fun _ => 0) toy_finalize
           toy_to_send_buffer (list byte) toy_parse_char
           [x0a; x0b] [x00; x0c; x00; x0d] [] receiving_client).
  discriminate.
Defined.

Lemma at_most_one_receive_outstanding_witness :
  let c := snd (state_of (toy_client_run peer_disconnects connected_client)) in
  (MAVConnTCPClient.rx_ops c + recv_posted (MAVConnTCPClient.posted c) <= 1)%nat.
Proof.
  apply (at_most_one_receive_outstanding true (fun _ => 0) toy_finalize
           toy_to_send_buffer (list byte) toy_parse_char
           1 240 0 one_address 5760 true connected_client peer_disconnects []).
  reflexivity.
Defined.

Lemma closed_channel_stays_closed_witness :
  let closed := state_of (MAVConnTCPClient.close External connected_client) in
  let c' := snd (state_of (toy_client_run write_fails closed)) in
  MAVConnTCPClient.socket c' = false
  /\ MAVConnTCPClient.tx_q c' = []
  /\ (List.length (MAVConnTCPClient.tx_ops c')
      <= List.length (MAVConnTCPClient.tx_ops connected_client))%nat
  /\ port_closed_count (MAVConnTCPClient.trace c')
     = S (port_closed_count (MAVConnTCPClient.trace connected_client)).
Proof.
  apply (closed_channel_stays_closed true (fun _ => 0) toy_finalize
           toy_to_send_buffer (list byte) toy_parse_char
           External connected_client write_fails []).
  reflexivity.
Defined.

Lemma io_error_on_open_client_always_throws_witness :
  let before :=
    state_of (toy_client_run [MAVConnTCPClient.Io_run_posted] connected_client) in
  let after :=
    MAVConnTCPClient.step true (fun _ => 0) toy_finalize toy_to_send_buffer
      toy_parse_char MAVConnTCPClient.Io_recv_error before in
  failure_of after = Some SystemError
  /\ MAVConnTCPClient.socket (snd (state_of after)) = false
  /\ MAVConnTCPClient.tx_q (snd (state_of after)) = []
  /\ MAVConnTCPClient.trace (snd (state_of after))
     = MAVConnTCPClient.trace (snd before)
       ++ [IoStop; SocketClose; TxClear; Emit port_closed].
Proof.
  apply (io_error_on_open_client_always_throws true (fun _ => 0) toy_finalize
           toy_to_send_buffer (list byte) toy_parse_char
           1 240 0 one_address 5760 true connected_client
           [MAVConnTCPClient.Io_run_posted] [] MAVConnTCPClient.Io_recv_error).
  - reflexivity.
  - reflexivity.
  - left. split; [reflexivity | discriminate].
Defined.

Lemma in_progress_check_never_holds_back_a_drain_witness :
  let c := snd (state_of (toy_client_run
                            [MAVConnTCPClient.Call_send_bytes payload_a;
                             MAVConnTCPClient.Io_run_posted]
                            connected_client)) in
  MAVConnTCPClient.tx_in_progress c = Some false
  /\ MAVConnTCPClient.do_send true c = MAVConnTCPClient.do_send false c.
Proof.
  apply (in_progress_check_never_holds_back_a_drain true (fun _ => 0)
           toy_finalize toy_to_send_buffer (list byte) toy_parse_char
           1 240 0 one_address 5760 true connected_client
           [MAVConnTCPClient.Call_send_bytes payload_a;
            MAVConnTCPClient.Io_run_posted] []).
  reflexivity.
Defined.

Lemma sends_enqueue_in_call_order_witness :
  send_all [payload_a; payload_b] connected_client
  = Ok (MAVConnTCPClient.with_posted
          (MAVConnTCPClient.posted connected_client
           ++ repeat (do_send_h true) (List.length [payload_a; payload_b]))
          (MAVConnTCPClient.with_tx_q
             (MAVConnTCPClient.tx_q connected_client
              ++ map MsgBuffer_of_bytes [payload_a; payload_b])
             connected_client)).
Proof.
  apply (sends_enqueue_in_call_order [payload_a; payload_b] connected_client).
  reflexivity.
Defined.

Lemma serial_sends_arrive_in_order_witness :
  exists c',
    serial_sends two_serial_sends receiving_client = Ok c'
    /\ idle c'
    /\ MAVConnTCPClient.wire c'
       = MAVConnTCPClient.wire receiving_client
         ++ List.concat (map fst two_serial_sends).
Proof.
  apply (serial_sends_arrive_in_order two_serial_sends receiving_client).
  - repeat split; reflexivity.
  - repeat constructor; cbn; try discriminate; lia.
Defined.

Lemma at_most_one_accept_outstanding_witness :
  let s := snd (state_of (toy_server_run first_client_receiving listening_server)) in
  (MAVConnTCPServer.accept_ops s
   + accept_posted (MAVConnTCPServer.posted s) <= 1)%nat.
Proof.
  apply (at_most_one_accept_outstanding true (fun _ => 0) toy_finalize
           toy_to_send_buffer (list byte) toy_parse_char
           1 240 0 one_address 5760 true listening_server
           first_client_receiving (fun _ => [])).
  reflexivity.
Defined.

Lemma accepted_clients_register_in_arrival_order_witness :
  exists s',
    toy_server_run (accepts two_connections) accepting_server
    = Ok (fun _ => [], s')
    /\ MAVConnTCPServer.client_list s'
       = MAVConnTCPServer.client_list accepting_server
         ++ map (registered accepting_server) two_connections
    /\ MAVConnTCPServer.posted s'
       = MAVConnTCPServer.posted accepting_server
         ++ map (fun k => MAVConnTCPServer.client_do_recv_h (new_instp k))
                two_connections
    /\ MAVConnTCPServer.accept_ops s'
       = MAVConnTCPServer.accept_ops accepting_server
    /\ MAVConnTCPServer.acceptor s' = MAVConnTCPServer.acceptor accepting_server
    /\ MAVConnTCPServer.io_stopped s' = false
    /\ MAVConnTCPServer.trace s' = MAVConnTCPServer.trace accepting_server
    /\ MAVConnTCPServer.sys_id s' = MAVConnTCPServer.sys_id accepting_server
    /\ MAVConnTCPServer.comp_id s' = MAVConnTCPServer.comp_id accepting_server.
Proof.
  apply (accepted_clients_register_in_arrival_order true (fun _ => 0)
           toy_finalize toy_to_send_buffer (list byte) toy_parse_char
           two_connections (fun _ => []) accepting_server).
  - reflexivity.
  - discriminate.
  - repeat constructor.
Defined.

Lemma server_republishes_client_messages_witness :
  let s := snd (state_of (toy_server_run first_client_receiving listening_server)) in
  let messages := snd (decode toy_parse_char 1 toy_stream []) in
  exists s',
    toy_server_step
      (MAVConnTCPServer.Io_client 100 (MAVConnTCPServer.Recv_done toy_stream))
      (fun _ => [], s)
    = Ok (MAVConnTCPServer.set_parser 1
            (fst (decode toy_parse_char 1 toy_stream [])) (fun _ => []), s')
    /\ MAVConnTCPServer.trace s'
       = MAVConnTCPServer.trace s ++ map announce messages
    /\ MAVConnTCPServer.client_list s'
       = MAVConnTCPServer.store 100
           (MAVConnTCPClient.with_trace
              (MAVConnTCPClient.trace accepted_client ++ map announce messages)
              accepted_client)
           (MAVConnTCPServer.client_list s)
    /\ map MAVConnTCPServer.instp (MAVConnTCPServer.client_list s')
       = map MAVConnTCPServer.instp (MAVConnTCPServer.client_list s)
    /\ MAVConnTCPServer.acceptor s' = MAVConnTCPServer.acceptor s
    /\ MAVConnTCPServer.accept_ops s' = MAVConnTCPServer.accept_ops s
    /\ MAVConnTCPServer.posted s' = MAVConnTCPServer.posted s.
Proof.
  apply (server_republishes_client_messages true (fun _ => 0)
           toy_finalize toy_to_send_buffer (list byte) toy_parse_char
           100 toy_stream (fun _ => [])
           (snd (state_of (toy_server_run first_client_receiving listening_server)))
           accepted_client).
  - reflexivity.
  - reflexivity.
  - discriminate.
Defined.

Lemma rejected_connection_always_ends_accept_loop_witness :
  let before := state_of (toy_server_run first_client_receiving listening_server) in
  let after := state_of (toy_server_step connection_at_capacity before) in
  returns (toy_server_step connection_at_capacity before) = true
  /\ MAVConnTCPServer.client_sock (snd after) = false
  /\ MAVConnTCPServer.client_list (snd after)
     = MAVConnTCPServer.client_list (snd before)
  /\ MAVConnTCPServer.acceptor (snd after)
     = MAVConnTCPServer.acceptor (snd before)
  /\ MAVConnTCPServer.trace (snd after) = MAVConnTCPServer.trace (snd before)
  /\ not_accepting (snd after)
  /\ forall es',
       (List.length
          (MAVConnTCPServer.client_list
             (snd (state_of
                     (MAVConnTCPServer.run true (fun _ => 0%Z) toy_finalize
                        toy_to_send_buffer toy_parse_char es' after))))
        <= List.length (MAVConnTCPServer.client_list (snd before)))%nat.
Proof.
  apply (rejected_connection_always_ends_accept_loop true (fun _ => 0)
           toy_finalize toy_to_send_buffer (list byte) toy_parse_char
           1 240 0 one_address 5760 true listening_server
           first_client_receiving (fun _ => []) loopback 0 2 101).
  - reflexivity.
  - reflexivity.
  - discriminate.
  - discriminate.
Defined.

Lemma concurrent_close_never_returns_on_io_thread_witness :
  let w := world_after io_first in
  TwoThreads.pc_io w <> TwoThreads.Returned
  /\ (TwoThreads.pc_external w = TwoThreads.Returned ->
      TwoThreads.pc_io w = TwoThreads.Thrown)
  /\ (TwoThreads.pc_external w = TwoThreads.AtJoin ->
      TwoThreads.pc_io w = TwoThreads.AtLock /\ TwoThreads.deadlocked w)
  /\ MAVConnTCPClient.io_thread (TwoThreads.chan w) = true.
Proof.
  apply (concurrent_close_never_returns_on_io_thread connected_client io_first
           (world_after io_first)).
  - reflexivity.
  - reflexivity.
  - vm_compute. reflexivity.
Defined.
